(** * dnskeytool.dnssec: key files, their lifecycle state and key listing

    A shallow embedding of [src/dnskeytool/dnssec.py].  Python values are
    modelled as follows.

    - [str] is a list of characters.  A character is an [ascii], read as a
      code point below 256; the files and file names of a key directory are
      plain ASCII in practice.
    - [int] is [Z].
    - a naive [datetime] is the record of its seven fields; comparison is the
      lexicographic comparison of the field tuples, as in CPython.
    - an exception is a value of [exn]; code that may raise returns a
      [result].  The constructors of [exn] record the exception class and,
      for [ValueError], the raise site, since the source separates its
      failures by message only.
    - [print(..., file=sys.stderr)] appends a line to a log that is threaded
      through the listing functions.
    - an external program is a function of the files of the key directory
      and of its arguments, which gives the files it leaves and what it
      wrote; the functions that start programs pass the directory on. *)

From Stdlib Require Import Ascii String.
From Stdlib Require Import ZArith List Bool Lia.
From Stdlib Require Import Sorting.Sorted Sorting.Permutation.
From Stdlib Require DecimalFacts DecimalN.
Import ListNotations.
Open Scope list_scope.
Open Scope Z_scope.

(** ** Strings *)

Definition str := list ascii.

Notation "$ s" := (list_ascii_of_string s%string)
  (at level 1, s at level 0, format "$ s").

(** ** Exceptions and results *)

Inductive exn : Type :=
| IndexError                      (* list index out of range *)
| ValueError_int                  (* int(): invalid literal *)
| ValueError_date_format          (* date_part: "Unexpected date format" *)
| ValueError_strptime             (* datetime.strptime: data does not match *)
| ValueError_key_type             (* "Unexpected key type word" *)
| ValueError_keyid                (* "... claims to be for id <keyid>, but is not!" *)
| ValueError_zone                 (* "... claims to be for id <zone>, but is not!" *)
| AttributeError                  (* attribute access on None *)
| OSError (msg : str).            (* _call: "Error executing process: ..." *)

Inductive result (A : Type) : Type :=
| Ok (a : A)
| Raise (e : exn).

Arguments Ok {A} a.
Arguments Raise {A} e.

Definition bind {A B} (r : result A) (f : A -> result B) : result B :=
  match r with
  | Ok a => f a
  | Raise e => Raise e
  end.

Notation "x <- r ;; k" := (bind r (fun x => k))
  (at level 61, r at next level, right associativity).

(** ** datetime *)

Record datetime : Type := mkdt {
  year : Z; month : Z; day : Z;
  hour : Z; minute : Z; second : Z;
  microsecond : Z
}.

Definition dt_tuple (d : datetime) : list Z :=
  [year d; month d; day d; hour d; minute d; second d; microsecond d].

(** Python compares sequences lexicographically: the first position where
    the two differ decides, and a proper prefix is smaller. *)
Fixpoint lex_cmp {A} (cmp : A -> A -> comparison) (a b : list A) : comparison :=
  match a, b with
  | [], [] => Eq
  | [], _ :: _ => Lt
  | _ :: _, [] => Gt
  | x :: a', y :: b' =>
      match cmp x y with
      | Eq => lex_cmp cmp a' b'
      | c => c
      end
  end.

Definition tuple_cmp (a b : list Z) : comparison := lex_cmp Z.compare a b.

Definition dt_cmp (a b : datetime) : comparison :=
  tuple_cmp (dt_tuple a) (dt_tuple b).

(** [a < b], [a <= b], [a > b] and [a == b] on datetimes. *)
Definition dt_ltb (a b : datetime) : bool :=
  match dt_cmp a b with Lt => true | _ => false end.
Definition dt_leb (a b : datetime) : bool :=
  match dt_cmp a b with Gt => false | _ => true end.
Definition dt_gtb (a b : datetime) : bool :=
  match dt_cmp a b with Gt => true | _ => false end.
Definition dt_eqb (a b : datetime) : bool :=
  match dt_cmp a b with Eq => true | _ => false end.

Definition dt_le (a b : datetime) : Prop := dt_leb a b = true.
Definition dt_lt (a b : datetime) : Prop := dt_ltb a b = true.

(** ** sorted() and list equality *)

(** [sorted] is stable and compares with [<] only.  It is modelled as the
    stable insertion sort: an element is placed in front of the first element
    of the sorted tail that is not smaller than it. *)
Section Sorted.
Variables (A K : Type) (key : A -> K) (ltb : K -> K -> bool).

Fixpoint insert_by (x : A) (l : list A) : list A :=
  match l with
  | [] => [x]
  | y :: l' =>
      if ltb (key y) (key x) then y :: insert_by x l' else x :: y :: l'
  end.

Fixpoint sorted_by (l : list A) : list A :=
  match l with
  | [] => []
  | x :: l' => insert_by x (sorted_by l')
  end.
End Sorted.

Arguments insert_by {A K} key ltb x l.
Arguments sorted_by {A K} key ltb l.

Fixpoint list_eqb {A} (eqb : A -> A -> bool) (a b : list A) : bool :=
  match a, b with
  | [], [] => true
  | x :: a', y :: b' => eqb x y && list_eqb eqb a' b'
  | _, _ => false
  end.

(** ** Python string primitives *)

Definition ch (n : nat) : ascii := ascii_of_nat n.

Definition str_eqb (a b : str) : bool := list_eqb Ascii.eqb a b.

(** Comparison of strings: lexicographic on code points. *)
Definition char_cmp (x y : ascii) : comparison :=
  Nat.compare (nat_of_ascii x) (nat_of_ascii y).

Definition str_cmp (a b : str) : comparison := lex_cmp char_cmp a b.

Definition str_ltb (a b : str) : bool :=
  match str_cmp a b with Lt => true | _ => false end.

(** [str.isspace] on one character, for code points below 256. *)
Definition is_space (c : ascii) : bool :=
  let n := nat_of_ascii c in
  ((9 <=? n) && (n <=? 13) || (28 <=? n) && (n <=? 32)
   || (n =? 133) || (n =? 160))%nat.

Definition is_digit (c : ascii) : bool :=
  let n := nat_of_ascii c in ((48 <=? n) && (n <=? 57))%nat.

(** [s.startswith(p)] *)
Fixpoint startswith (s p : str) : bool :=
  match p, s with
  | [], _ => true
  | a :: p', b :: s' => Ascii.eqb a b && startswith s' p'
  | _ :: _, [] => false
  end.

(** [sub in s] *)
Fixpoint contains (sub s : str) : bool :=
  startswith s sub ||
  match s with
  | [] => false
  | _ :: s' => contains sub s'
  end.

(** [s.split()]: the maximal runs of non-whitespace characters. *)
Fixpoint split_ws (s : str) : list str :=
  match s with
  | [] => []
  | c :: s' =>
      if is_space c then split_ws s'
      else
        match s' with
        | [] => [[c]]
        | d :: _ =>
            if is_space d then [c] :: split_ws s'
            else
              match split_ws s' with
              | w :: ws => (c :: w) :: ws
              | [] => [[c]]
              end
        end
  end.

(** [s.split(sep)] for a one-character separator. *)
Fixpoint split_on (sep : ascii) (s : str) : list str :=
  match s with
  | [] => [[]]
  | c :: s' =>
      if Ascii.eqb c sep then [] :: split_on sep s'
      else
        match split_on sep s' with
        | w :: ws => (c :: w) :: ws
        | [] => [[c]]
        end
  end.

(** [s.lstrip(chars)] with the characters to strip given as a predicate. *)
Fixpoint lstrip (p : ascii -> bool) (s : str) : str :=
  match s with
  | [] => []
  | c :: s' => if p c then lstrip p s' else s
  end.

Definition rstrip (p : ascii -> bool) (s : str) : str :=
  rev (lstrip p (rev s)).

Definition strip (p : ascii -> bool) (s : str) : str :=
  rstrip p (lstrip p s).

(** [l[i]] *)
Definition index {A} (l : list A) (i : nat) : result A :=
  match nth_error l i with
  | Some a => Ok a
  | None => Raise IndexError
  end.

(** [l[-1]] *)
Definition index_last {A} (l : list A) : result A :=
  match rev l with
  | a :: _ => Ok a
  | [] => Raise IndexError
  end.

(** ** Decimal numerals *)

Definition digit_of_char (c : ascii) (u : Decimal.uint) : Decimal.uint :=
  match Nat.sub (nat_of_ascii c) 48 with
  | 0%nat => Decimal.D0 u | 1%nat => Decimal.D1 u | 2%nat => Decimal.D2 u
  | 3%nat => Decimal.D3 u | 4%nat => Decimal.D4 u | 5%nat => Decimal.D5 u
  | 6%nat => Decimal.D6 u | 7%nat => Decimal.D7 u | 8%nat => Decimal.D8 u
  | _ => Decimal.D9 u
  end.

(** The numeral written by a string of ASCII digits. *)
Fixpoint uint_of_digits (s : str) : option Decimal.uint :=
  match s with
  | [] => Some Decimal.Nil
  | c :: s' =>
      if is_digit c then option_map (digit_of_char c) (uint_of_digits s')
      else None
  end.

Fixpoint digits_of_uint (u : Decimal.uint) : str :=
  match u with
  | Decimal.Nil => []
  | Decimal.D0 u' => "0"%char :: digits_of_uint u'
  | Decimal.D1 u' => "1"%char :: digits_of_uint u'
  | Decimal.D2 u' => "2"%char :: digits_of_uint u'
  | Decimal.D3 u' => "3"%char :: digits_of_uint u'
  | Decimal.D4 u' => "4"%char :: digits_of_uint u'
  | Decimal.D5 u' => "5"%char :: digits_of_uint u'
  | Decimal.D6 u' => "6"%char :: digits_of_uint u'
  | Decimal.D7 u' => "7"%char :: digits_of_uint u'
  | Decimal.D8 u' => "8"%char :: digits_of_uint u'
  | Decimal.D9 u' => "9"%char :: digits_of_uint u'
  end.

(** The value of a non-empty string of ASCII digits. *)
Definition nat_literal (s : str) : option Z :=
  match s with
  | [] => None
  | _ => option_map (fun u => Z.of_N (N.of_uint u)) (uint_of_digits s)
  end.

(** Single underscores between digits are dropped, as [int] does; anything
    else that is not a digit, and the empty string, is rejected. *)
Fixpoint drop_underscores (after_digit : bool) (s : str) : option str :=
  match s with
  | [] => if after_digit then Some [] else None
  | c :: s' =>
      if is_digit c then option_map (cons c) (drop_underscores true s')
      else if Ascii.eqb c "_" then
        if after_digit then drop_underscores false s' else None
      else None
  end.

(** The white space that [int] skips around a literal.  The conversion
    first replaces by a space every white-space character from U+007F on,
    here U+0085 and U+00A0, and then skips the white space of C: the
    characters 9 to 13 and the space.  The separators U+001C to U+001F, which
    [str.strip] removes, are not skipped: [int] raises on them. *)
Definition is_int_space (c : ascii) : bool :=
  let n := nat_of_ascii c in
  ((9 <=? n) && (n <=? 13) || (n =? 32) || (n =? 133) || (n =? 160))%nat.

(** [int(s)] in base ten: surrounding whitespace, an optional sign, digits.
    The interpreter's limit on the number of digits is not modelled. *)
Definition int (s : str) : result Z :=
  let body := strip is_int_space s in
  let '(neg, ds) :=
    match body with
    | c :: rest =>
        if Ascii.eqb c "-" then (true, rest)
        else if Ascii.eqb c "+" then (false, rest)
        else (false, body)
    | [] => (false, body)
    end in
  match drop_underscores false ds with
  | Some ds' =>
      match nat_literal ds' with
      | Some n => Ok (if neg then - n else n)
      | None => Raise ValueError_int
      end
  | None => Raise ValueError_int
  end.

(** [str(n)] for an integer. *)
Definition abs_digits (n : Z) : str := digits_of_uint (N.to_uint (Z.abs_N n)).

Definition str_of_int (n : Z) : str :=
  (if n <? 0 then ["-"%char] else []) ++ abs_digits n.

(** [f"{n:{w}d}"]: right-aligned in [w] columns, padded with spaces. *)
Definition format_d (w : nat) (n : Z) : str :=
  let r := str_of_int n in
  repeat " "%char (w - length r) ++ r.

(** [f"{n:0{w}d}"]: zeros are inserted between the sign and the digits. *)
Definition format_0d (w : nat) (n : Z) : str :=
  let sign := if n <? 0 then ["-"%char] else [] in
  let ds := abs_digits n in
  sign ++ repeat "0"%char (w - length sign - length ds) ++ ds.

(** ** datetime.strptime(dt, "%Y%m%d%H%M%S") *)

Definition is_leap (y : Z) : bool :=
  (y mod 4 =? 0) && (negb (y mod 100 =? 0) || (y mod 400 =? 0)).

Definition days_in_month (y m : Z) : Z :=
  if m =? 2 then (if is_leap y then 29 else 28)
  else if (m =? 4) || (m =? 6) || (m =? 9) || (m =? 11) then 30
  else 31.

Definition field (s : str) (from len : nat) : option Z :=
  nat_literal (firstn len (skipn from s)).

(** On a token of fourteen characters the format matches exactly when the
    characters are digits and the six fields, at their full widths, are in
    range; the datetime constructor then rejects year 0, a day beyond the end
    of the month and a second above 59. *)
Definition strptime (dt : str) : result datetime :=
  match field dt 0 4, field dt 4 2, field dt 6 2,
        field dt 8 2, field dt 10 2, field dt 12 2 with
  | Some y, Some m, Some d, Some hh, Some mm, Some ss =>
      if (length dt =? 14)%nat
         && (1 <=? y) && (1 <=? m) && (m <=? 12)
         && (1 <=? d) && (d <=? days_in_month y m)
         && (hh <=? 23) && (mm <=? 59) && (ss <=? 59)
      then Ok (mkdt y m d hh mm ss 0)
      else Raise ValueError_strptime
  | _, _, _, _, _, _ => Raise ValueError_strptime
  end.

Definition date_part (colon_line : str) : result datetime :=
  let words := split_ws colon_line in
  dt <- index words 2 ;;
  if negb (length dt =? length $"yyyymmddhhmmss")%nat
  then Raise ValueError_date_format
  else strptime dt.

(** ** pathlib *)

(** [name.rfind(c)] *)
Fixpoint rfind (c : ascii) (s : str) : option nat :=
  match s with
  | [] => None
  | x :: s' =>
      match rfind c s' with
      | Some i => Some (S i)
      | None => if Ascii.eqb x c then Some 0%nat else None
      end
  end.

(** [PurePath.suffix] of a file name: the part from the last dot on, unless
    that dot starts or ends the name. *)
Definition suffix (name : str) : str :=
  match rfind "." name with
  | Some i =>
      if ((0 <? i) && (i <? length name - 1))%nat then skipn i name else []
  | None => []
  end.

(** [PurePath.stem] *)
Definition stem (name : str) : str :=
  firstn (length name - length (suffix name)) name.

(** [PurePath.with_suffix], on the file name of a path in one directory. *)
Definition with_suffix (name sfx : str) : str := stem name ++ sfx.

(** A regular file of the key directory, as [Path] sees it. *)
Record file : Type := mkfile {
  f_name : str;             (* path.name *)
  f_owner : str;            (* path.owner() *)
  f_group : str;            (* path.group() *)
  f_mode : Z;               (* path.stat().st_mode *)
  f_lines : list str        (* path.open("rt").readlines() *)
}.

(** ** KeyFile *)

Record KeyFile : Type := mkKeyFile {
  path_rr : str;            (* file name of the public record *)
  path_pk : str;            (* file name of the private half *)
  name : str;               (* path.stem *)
  owner : str;
  group : str;
  perm : Z;
  zone : str;
  algo : Z;
  keyid : Z;
  type : str;               (* "", "ZSK" or "KSK" *)
  d_create : option datetime;
  d_publish : option datetime;
  d_active : option datetime;
  d_inactive : option datetime;
  d_delete : option datetime
}.

(** [x is not None and x <= ref] *)
Definition set_and_le (x : option datetime) (ref : datetime) : bool :=
  match x with
  | Some d => dt_leb d ref
  | None => false
  end.

(** [x is not None and x > ref] *)
Definition set_and_gt (x : option datetime) (ref : datetime) : bool :=
  match x with
  | Some d => dt_gtb d ref
  | None => false
  end.

(** [KeyFile.state], with the reference time passed explicitly. *)
Definition state (self : KeyFile) (ref : datetime) : str :=
  if set_and_le (d_delete self) ref then $"DEL"
  else if set_and_le (d_inactive self) ref then $"INAC"
  else if set_and_le (d_active self) ref then $"ACT"
  else if set_and_le (d_publish self) ref then $"PUB"
  else if set_and_gt (d_create self) ref then $"FUT"
  else $"".

(** [list(filter(lambda x: x is not None, l))] *)
Fixpoint filter_set (l : list (option datetime)) : list datetime :=
  match l with
  | [] => []
  | Some d :: l' => d :: filter_set l'
  | None :: l' => filter_set l'
  end.

Definition assigned (self : KeyFile) : list datetime :=
  filter_set [d_publish self; d_active self; d_inactive self; d_delete self].

(** The three kinds of value [next_change] returns: a datetime, [None], or
    the string ["Inconsistent Dates"]. *)
Inductive change : Type :=
| ChangeAt (d : datetime)
| NoChange
| InconsistentDates.

(** [next(filter(lambda x: x > ref, l), None)] *)
Fixpoint first_after (ref : datetime) (l : list datetime) : change :=
  match l with
  | [] => NoChange
  | d :: l' => if dt_gtb d ref then ChangeAt d else first_after ref l'
  end.

Definition next_change (self : KeyFile) (ref : datetime) : change :=
  let assigned := assigned self in
  let expected_order := sorted_by (fun d => d) dt_ltb assigned in
  if list_eqb dt_eqb expected_order assigned
  then first_after ref assigned
  else InconsistentDates.

(** ** KeyFile.__init__ *)

Definition set_type (k : KeyFile) (t : str) : KeyFile :=
  mkKeyFile (path_rr k) (path_pk k) (name k) (owner k) (group k) (perm k)
    (zone k) (algo k) (keyid k) t
    (d_create k) (d_publish k) (d_active k) (d_inactive k) (d_delete k).

Definition set_d_create (k : KeyFile) (d : option datetime) : KeyFile :=
  mkKeyFile (path_rr k) (path_pk k) (name k) (owner k) (group k) (perm k)
    (zone k) (algo k) (keyid k) (type k)
    d (d_publish k) (d_active k) (d_inactive k) (d_delete k).

Definition set_d_publish (k : KeyFile) (d : option datetime) : KeyFile :=
  mkKeyFile (path_rr k) (path_pk k) (name k) (owner k) (group k) (perm k)
    (zone k) (algo k) (keyid k) (type k)
    (d_create k) d (d_active k) (d_inactive k) (d_delete k).

Definition set_d_active (k : KeyFile) (d : option datetime) : KeyFile :=
  mkKeyFile (path_rr k) (path_pk k) (name k) (owner k) (group k) (perm k)
    (zone k) (algo k) (keyid k) (type k)
    (d_create k) (d_publish k) d (d_inactive k) (d_delete k).

Definition set_d_inactive (k : KeyFile) (d : option datetime) : KeyFile :=
  mkKeyFile (path_rr k) (path_pk k) (name k) (owner k) (group k) (perm k)
    (zone k) (algo k) (keyid k) (type k)
    (d_create k) (d_publish k) (d_active k) d (d_delete k).

Definition set_d_delete (k : KeyFile) (d : option datetime) : KeyFile :=
  mkKeyFile (path_rr k) (path_pk k) (name k) (owner k) (group k) (perm k)
    (zone k) (algo k) (keyid k) (type k)
    (d_create k) (d_publish k) (d_active k) (d_inactive k) d.

(** The branch for the descriptive comment
    ["; This is a zone-signing key, keyid 12345, for example.com."]. *)
Definition read_description (self : KeyFile) (line : str) : result KeyFile :=
  let words := split_ws line in
  w4 <- index words 4 ;;
  self' <- (if str_eqb w4 $"zone-signing" then Ok (set_type self $"ZSK")
            else if str_eqb w4 $"key-signing" then Ok (set_type self $"KSK")
            else Raise ValueError_key_type) ;;
  w7 <- index words 7 ;;
  id <- int (removelast w7) ;;
  if negb (keyid self' =? id) then Raise ValueError_keyid
  else
    wl <- index_last words ;;
    if negb (str_eqb (zone self') wl) then Raise ValueError_zone
    else Ok self'.

(** The body of the loop over the lines of the file. *)
Definition read_line (self : KeyFile) (line : str) : result KeyFile :=
  if negb (startswith line $";") then Ok self
  else if contains $"Created:" line then
    d <- date_part line ;; Ok (set_d_create self (Some d))
  else if contains $"Publish:" line then
    d <- date_part line ;; Ok (set_d_publish self (Some d))
  else if contains $"Activate:" line then
    d <- date_part line ;; Ok (set_d_active self (Some d))
  else if contains $"Inactive:" line then
    d <- date_part line ;; Ok (set_d_inactive self (Some d))
  else if contains $"Delete:" line then
    d <- date_part line ;; Ok (set_d_delete self (Some d))
  else if contains $"This is a " line && contains $"keyid" line
          && contains $"for" line then
    read_description self line
  else Ok self.

Fixpoint read_lines (self : KeyFile) (lines : list str) : result KeyFile :=
  match lines with
  | [] => Ok self
  | line :: rest => self' <- read_line self line ;; read_lines self' rest
  end.

(** The fields set before the file is opened. *)
Definition parse_name (path : file) : result KeyFile :=
  let stem_ := stem (f_name path) in
  let ff := split_on "+" stem_ in
  ff0 <- index ff 0 ;;
  a <- (w <- index ff 1 ;; int w) ;;
  i <- (w <- index ff 2 ;; int w) ;;
  Ok (mkKeyFile (f_name path) (with_suffix (f_name path) $".private") stem_
        (f_owner path) (f_group path) (f_mode path)
        (tl ff0) a i $"" None None None None None).

(** [KeyFile(path)].  The calls that ask the file system for the owner, the
    group and the mode of the file, and the opening of the file, are taken to
    succeed: their results are the fields of [path]. *)
Definition KeyFile_init (path : file) : result KeyFile :=
  self <- parse_name path ;;
  read_lines self (f_lines path).

Definition __str__ (self : KeyFile) : str :=
  zone self ++ $"+" ++ format_0d 3 (algo self) ++ $"+" ++ format_0d 5 (keyid self).

Definition sort_key (self : KeyFile) : str :=
  zone self ++ $"+" ++ type self ++ $"+" ++ format_d 3 (algo self)
    ++ $"+" ++ format_d 5 (keyid self).

(** ** DnsSec *)

(** The key directory is the list of its regular files, in the order in
    which the directory is scanned. *)
Record DnsSec : Type := mkDnsSec {
  path : list file;
  echo : bool
}.

(** What the functions print to standard error. *)
Inductive stderr_line : Type :=
| Executing (args : list str)
    (* "Executing: <args>" *)
| Warning (file_name : str).
    (* "Warning: <file_name> exists, but corresponding .private does not!" *)

(** *** Path.glob *)

(** Wildcard patterns within one directory: [*] matches any run of
    characters, [?] one character, anything else itself.  Bracket
    expressions and path separators are outside this model. *)
Inductive glob_token : Type :=
| Star
| AnyChar
| Lit (c : ascii).

Definition glob_token_of (c : ascii) : glob_token :=
  if Ascii.eqb c "*" then Star
  else if Ascii.eqb c "?" then AnyChar
  else Lit c.

Definition glob_tokens (pattern : str) : list glob_token :=
  map glob_token_of pattern.

Fixpoint tokens_match (p : list glob_token) (s : str) : bool :=
  match p with
  | [] => match s with [] => true | _ :: _ => false end
  | Star :: p' =>
      (fix star (s : str) : bool :=
         tokens_match p' s ||
         match s with
         | [] => false
         | _ :: s' => star s'
         end) s
  | AnyChar :: p' =>
      match s with
      | _ :: s' => tokens_match p' s'
      | [] => false
      end
  | Lit c :: p' =>
      match s with
      | x :: s' => Ascii.eqb x c && tokens_match p' s'
      | [] => false
      end
  end.

Definition glob_match (pattern name_ : str) : bool :=
  tokens_match (glob_tokens pattern) name_.

Definition glob (self : DnsSec) (pattern : str) : list file :=
  filter (fun f => glob_match pattern (f_name f)) (path self).

(** [Path.exists] for a name in the key directory. *)
Definition exists_ (self : DnsSec) (name_ : str) : bool :=
  existsb (fun f => str_eqb (f_name f) name_) (path self).

(** The pattern [f"K{zone}+*+*.key"]. *)
Definition key_pattern (zone_ : str) : str := $"K" ++ zone_ ++ $"+*+*.key".

(** *** _iter_keyfiles and list_keys *)

(** One step of the generator: either it prints a warning and goes on, or it
    yields a file. *)
Inductive step : Type :=
| Warn (file_name : str)
| Yield (f : file).

Definition _iter_keyfiles (self : DnsSec) (zone_ : str) : list step :=
  map (fun f =>
         if negb (exists_ self (with_suffix (f_name f) $".private"))
         then Warn (f_name f)
         else Yield f)
      (glob self (key_pattern zone_)).

(** The loop of [list_keys] drives the generator; an exception raised by the
    constructor ends it, after the warnings printed so far. *)
Fixpoint collect (steps : list step) (acc : list KeyFile)
  : list stderr_line * result (list KeyFile) :=
  match steps with
  | [] => ([], Ok acc)
  | Warn n :: rest =>
      let (log, r) := collect rest acc in (Warning n :: log, r)
  | Yield pk :: rest =>
      match KeyFile_init pk with
      | Ok kf => collect rest (acc ++ [kf])
      | Raise e => ([], Raise e)
      end
  end.

(** The zone that [list_keys] hands to [_iter_keyfiles]. *)
Definition listed_zone (zone_ : str) (recursive : bool) : str :=
  if recursive then $"*." ++ lstrip (Ascii.eqb ".") zone_ else zone_.

Definition list_keys (self : DnsSec) (zone_ : str) (recursive : bool)
  : list stderr_line * result (list KeyFile) :=
  let zone_ := listed_zone zone_ recursive in
  let (log, r) := collect (_iter_keyfiles self zone_) [] in
  (log, keys <- r ;; Ok (sorted_by sort_key str_ltb keys)).

(** *** subprocess.run and _call *)

(** What the invoked program did: its exit status and what it wrote.  The
    output is held as text.  With [text=True] the captured output is decoded
    before [_call] sees it; a run whose output does not decode, on which
    [subprocess.run] raises [UnicodeDecodeError], has no counterpart here.
    Output of ASCII characters only decodes to itself in every encoding that
    extends ASCII. *)
Record process : Type := mkprocess {
  exit_status : Z;
  written_stdout : str;
  written_stderr : str
}.

Record CompletedProcess : Type := mkCompleted {
  returncode : Z;
  stdout : option str;
  stderr : option str
}.

(** [subprocess.run(args, stdout=..., stderr=..., text=True)]: a stream is
    captured only when [PIPE] is passed for it, and is [None] otherwise. *)
Definition subprocess_run (p : process) (stdout_pipe stderr_pipe : bool)
  : CompletedProcess :=
  mkCompleted (exit_status p)
    (if stdout_pipe then Some (written_stdout p) else None)
    (if stderr_pipe then Some (written_stderr p) else None).

(** [f"{x}"] for a value that is a string or [None]. *)
Definition format_optional (x : option str) : str :=
  match x with
  | Some s => s
  | None => $"None"
  end.

Definition is_linebreak (c : ascii) : bool :=
  let n := nat_of_ascii c in
  ((10 <=? n) && (n <=? 13) || (28 <=? n) && (n <=? 30) || (n =? 133))%nat.

(** [s.splitlines(keepends=False)] *)
Fixpoint splitlines_from (after_cr : bool) (s : str) : list str :=
  match s with
  | [] => []
  | c :: s' =>
      if after_cr && Ascii.eqb c (ch 10) then splitlines_from false s'
      else if is_linebreak c then [] :: splitlines_from (Ascii.eqb c (ch 13)) s'
      else
        match splitlines_from false s' with
        | l :: ls => (c :: l) :: ls
        | [] => [[c]]
        end
  end.

Definition splitlines (s : str) : list str := splitlines_from false s.

(** [_call], given what the program started with [args] does.  The call to
    [subprocess.run] passes [stdout=subprocess.PIPE] and nothing for
    [stderr]. *)
Definition _call (self : DnsSec) (run : list str -> process) (args : list str)
  : list stderr_line * result (list str) :=
  let log := if echo self then [Executing args] else [] in
  let ret := subprocess_run (run args) true false in
  if negb (returncode ret =? 0) then
    (log, Raise (OSError ($"Error executing process: "
                            ++ str_of_int (returncode ret) ++ [ch 10]
                            ++ format_optional (stderr ret))))
  else
    (log, match stdout ret with
          | Some out => Ok (splitlines (strip is_space out))
          | None => Raise AttributeError
          end).

(** ** Vocabulary of the specification *)

(** A timestamp is set and at or before the reference time. *)
Definition at_or_before (x : option datetime) (t : datetime) : Prop :=
  exists d, x = Some d /\ dt_le d t.

(** A timestamp is set and strictly after the reference time. *)
Definition strictly_after (x : option datetime) (t : datetime) : Prop :=
  exists d, x = Some d /\ dt_lt t d.

Definition midnight (y m d : Z) : datetime := mkdt y m d 0 0 0 0.

(** The error taxonomy of the specification.  The source raises built-in
    exceptions only; a failure to index or to convert malformed text counts
    as a parse error. *)
Inductive error_class : Type :=
| ParseError
| IdentityMismatchError
| UnrecognizedTypeError
| ExternalToolError
| OtherError.

Definition classify (e : exn) : error_class :=
  match e with
  | IndexError | ValueError_int
  | ValueError_date_format | ValueError_strptime => ParseError
  | ValueError_key_type => UnrecognizedTypeError
  | ValueError_keyid | ValueError_zone => IdentityMismatchError
  | OSError _ => ExternalToolError
  | AttributeError => OtherError
  end.

(** The branch of the loop body that a line of the file takes. *)
Inductive line_kind : Type :=
| Skipped
| Created
| Publish
| Activate
| Inactive
| Delete
| Description.

Definition kind_of (line : str) : line_kind :=
  if negb (startswith line $";") then Skipped
  else if contains $"Created:" line then Created
  else if contains $"Publish:" line then Publish
  else if contains $"Activate:" line then Activate
  else if contains $"Inactive:" line then Inactive
  else if contains $"Delete:" line then Delete
  else if contains $"This is a " line && contains $"keyid" line
          && contains $"for" line then Description
  else Skipped.

Definition kind_eqb (a b : line_kind) : bool :=
  match a, b with
  | Skipped, Skipped | Created, Created | Publish, Publish
  | Activate, Activate | Inactive, Inactive | Delete, Delete
  | Description, Description => true
  | _, _ => false
  end.

Definition is_date_kind (kd : line_kind) : bool :=
  match kd with
  | Created | Publish | Activate | Inactive | Delete => true
  | Skipped | Description => false
  end.

(** The label that selects each of the five date branches. *)
Definition label_of (kd : line_kind) : str :=
  match kd with
  | Created => $"Created:"
  | Publish => $"Publish:"
  | Activate => $"Activate:"
  | Inactive => $"Inactive:"
  | Delete => $"Delete:"
  | Skipped | Description => []
  end.

(** The temporal field that a date branch assigns. *)
Definition date_field (kd : line_kind) (k : KeyFile) : option datetime :=
  match kd with
  | Created => d_create k
  | Publish => d_publish k
  | Activate => d_active k
  | Inactive => d_inactive k
  | Delete => d_delete k
  | Skipped | Description => None
  end.

(** The last line of a file that satisfies a condition. *)
Fixpoint last_such (p : str -> bool) (lines : list str) : option str :=
  match lines with
  | [] => None
  | l :: rest =>
      match last_such p rest with
      | Some l' => Some l'
      | None => if p l then Some l else None
      end
  end.

(** A comment line on which a label appears. *)
Definition comment_with (label l : str) : bool :=
  startswith l $";" && contains label l.

(** What the descriptive comment says: the key purpose, the key tag and the
    zone. *)
Definition purpose_word (line : str) : option str :=
  nth_error (split_ws line) 4.

Definition recognized (w : str) : bool :=
  str_eqb w $"zone-signing" || str_eqb w $"key-signing".

Definition embedded_keyid (line : str) : option Z :=
  match nth_error (split_ws line) 7 with
  | Some w => match int (removelast w) with Ok i => Some i | Raise _ => None end
  | None => None
  end.

Definition embedded_zone (line : str) : option str :=
  match rev (split_ws line) with
  | w :: _ => Some w
  | [] => None
  end.

(** The file name [K<zone>+<algorithm>+<keyid>.key] of the naming convention,
    with the algorithm in three and the key tag in five digits. *)
Definition key_file_name (zone_ : str) (algo_ keyid_ : Z) : str :=
  $"K" ++ zone_ ++ $"+" ++ format_0d 3 algo_ ++ $"+" ++ format_0d 5 keyid_
    ++ $".key".

Definition all_digits (s : str) : bool := forallb is_digit s.

(** A name without the characters that are special in a pattern. *)
Definition plain (s : str) : bool :=
  forallb (fun c => negb (Ascii.eqb c "*" || Ascii.eqb c "?"
                          || Ascii.eqb c "[" || Ascii.eqb c "/")) s.

(** Constructing the records of a list of files, in order. *)
Fixpoint init_all (files : list file) : result (list KeyFile) :=
  match files with
  | [] => Ok []
  | f :: rest =>
      k <- KeyFile_init f ;; ks <- init_all rest ;; Ok (k :: ks)
  end.

Definition has_private (self : DnsSec) (f : file) : bool :=
  exists_ self (with_suffix (f_name f) $".private").

(** The order of the tuples (zone, type, algo, keyid). *)
Definition key_tuple_cmp (a b : KeyFile) : comparison :=
  match str_cmp (zone a) (zone b) with
  | Eq =>
      match str_cmp (type a) (type b) with
      | Eq =>
          match algo a ?= algo b with
          | Eq => keyid a ?= keyid b
          | c => c
          end
      | c => c
      end
  | c => c
  end.

(** The labels that the loop tests before it tests the label of a branch. *)
Definition earlier_labels (kd : line_kind) : list str :=
  match kd with
  | Created => []
  | Publish => [$"Created:"]
  | Activate => [$"Created:"; $"Publish:"]
  | Inactive => [$"Created:"; $"Publish:"; $"Activate:"]
  | Delete => [$"Created:"; $"Publish:"; $"Activate:"; $"Inactive:"]
  | Skipped | Description => []
  end.

(** A comment line that contains the label of a date branch and none of the
    labels tested before it. *)
Definition dated_by (kd : line_kind) (l : str) : bool :=
  startswith l $";" && contains (label_of kd) l
  && forallb (fun lb => negb (contains lb l)) (earlier_labels kd).

(** A record as the naming convention produces it: the characters of the
    zone sort above the separator [+], the algorithm has at most three and
    the key tag at most five digits. *)
Definition conventional (k : KeyFile) : bool :=
  forallb (fun c => (nat_of_ascii "+" <? nat_of_ascii c)%nat) (zone k)
  && (0 <=? algo k) && (algo k <? 1000)
  && (0 <=? keyid k) && (keyid k <? 100000).

(** A check, by enumeration, that the numbers [n], ..., [n + fuel] written in
    [w] columns all have that width and are in strictly increasing order as
    strings. *)
Fixpoint increasing_from (w : nat) (fuel : nat) (n : Z) : bool :=
  match fuel with
  | O => (length (format_d w n) =? w)%nat
  | S fuel' =>
      if str_ltb (format_d w n) (format_d w (n + 1))
         && (length (format_d w n) =? w)%nat
      then increasing_from w fuel' (n + 1)
      else false
  end.

(** The identity fields, which the loop over the lines never assigns. *)
Definition same_identity (a b : KeyFile) : Prop :=
  path_rr a = path_rr b /\ path_pk a = path_pk b /\ name a = name b
  /\ owner a = owner b /\ group a = group b /\ perm a = perm b
  /\ zone a = zone b /\ algo a = algo b /\ keyid a = keyid b.

(** The file names that [list_keys] asks for, for a zone without pattern
    characters: [K<zone>+<a>+<b>.key], and with [recursive]
    [K<prefix>.<zone>+<a>+<b>.key] for the zone without its leading dots. *)
Definition key_name_for (z : str) (recursive : bool) (name_ : str) : Prop :=
  if recursive then
    exists pre a b,
      name_ = $"K" ++ pre ++ $"." ++ lstrip (Ascii.eqb ".") z
                ++ $"+" ++ a ++ $"+" ++ b ++ $".key"
  else
    exists a b, name_ = $"K" ++ z ++ $"+" ++ a ++ $"+" ++ b ++ $".key".

(** The tail [+*+*.key] of a key pattern. *)
Definition key_tail : list glob_token :=
  Lit "+" :: Star :: Lit "+" :: Star :: glob_tokens $".key".

(** ** Sample key files *)

Definition nl : str := [ch 10].

Definition mode_0644 : Z := 33188.

Definition key_file (name_ : str) (lines : list str) : file :=
  mkfile name_ $"bind" $"bind" mode_0644 lines.

Definition description_line : str :=
  $"; This is a zone-signing key, keyid 12345, for example.com." ++ nl.

Definition created_line : str :=
  $"; Created: 20231215093000 (Fri Dec 15 09:30:00 2023)" ++ nl.

Definition publish_line : str :=
  $"; Publish: 20240101000000 (Mon Jan  1 00:00:00 2024)" ++ nl.

Definition activate_line : str :=
  $"; Activate: 20240201000000 (Thu Feb  1 00:00:00 2024)" ++ nl.

Definition host_line : str :=
  $"; This is a host key, keyid 54321, for example.com." ++ nl.

Definition annotated_line : str :=
  $"; Created: 20231215093000 (Publish: see above)" ++ nl.

Definition record_line : str :=
  $"example.com. IN DNSKEY 256 3 13 mdsswUyr3DPW132mOi8V9xESWE8jTo0d" ++ nl.

(** A key file as the key generator writes it. *)
Definition example_key : file :=
  key_file $"Kexample.com.+013+12345.key"
    [description_line; created_line; publish_line; activate_line; record_line].

(** The comment gives another key tag than the file name. *)
Definition wrong_tag_key : file :=
  key_file $"Kexample.com.+013+12345.key"
    [$"; This is a zone-signing key, keyid 54321, for example.com." ++ nl;
     created_line; record_line].

(** The comment gives another key tag than the file name, and a key purpose
    that is neither of the two known ones. *)
Definition host_key : file :=
  key_file $"Kexample.com.+013+12345.key"
    [host_line; created_line; record_line].

(** The comment agrees with the file name but names an unknown purpose. *)
Definition unknown_purpose_key : file :=
  key_file $"Kexample.com.+013+12345.key"
    [$"; This is a host key, keyid 12345, for example.com." ++ nl;
     created_line; record_line].

(** No descriptive comment. *)
Definition bare_key : file :=
  key_file $"Kexample.com.+013+12345.key"
    [created_line; publish_line; record_line].

(** A fourth field after the key tag. *)
Definition four_field_key : file :=
  key_file $"Kexample.com.+013+12345+old.key"
    [description_line; created_line; record_line].

(** Only two fields. *)
Definition two_field_key : file :=
  key_file $"Kexample.com.+013.key" [description_line].

(** The algorithm field starts with the separator U+001C, which [int] does
    not skip. *)
Definition separator_key : file :=
  key_file ($"Kz+" ++ [ch 28] ++ $"13+5.key") [].

(** A date without its time of day. *)
Definition short_date_key : file :=
  key_file $"Kexample.com.+013+12345.key"
    [description_line; $"; Publish: 20240101 (Mon Jan  1 2024)" ++ nl].

(** A date without its time of day, before a comment that gives another key
    tag than the file name. *)
Definition late_description_key : file :=
  key_file $"Kexample.com.+013+12345.key"
    [$"; Publish: 20240101 (Mon Jan  1 2024)" ++ nl;
     $"; This is a zone-signing key, keyid 54321, for example.com." ++ nl].

(** A comment that gives another key tag than the file name, before a date
    without its time of day. *)
Definition early_description_key : file :=
  key_file $"Kexample.com.+013+12345.key"
    [$"; This is a zone-signing key, keyid 54321, for example.com." ++ nl;
     $"; Publish: 20240101 (Mon Jan  1 2024)" ++ nl].

(** The publication date is given twice. *)
Definition republished_key : file :=
  key_file $"Kexample.com.+013+12345.key"
    [description_line; created_line; publish_line;
     $"; Publish: 20240115000000 (Mon Jan 15 00:00:00 2024)" ++ nl;
     activate_line; record_line].

(** The creation line mentions the label of the publication line. *)
Definition annotated_key : file :=
  key_file $"Kexample.com.+013+12345.key"
    [description_line; publish_line; annotated_line; record_line].

Definition private_file (name_ : str) : file :=
  key_file name_ [$"Private-key-format: v1.3" ++ nl].

(** A directory with the key pair of example.com and of one subdomain, and a
    public key whose private half is gone. *)
Definition example_dir : DnsSec :=
  mkDnsSec
    [ key_file $"Ksub.example.com.+013+00042.key"
        [$"; This is a key-signing key, keyid 42, for sub.example.com." ++ nl];
      private_file $"Ksub.example.com.+013+00042.private";
      key_file $"Kexample.com.+013+54321.key" [created_line];
      example_key;
      private_file $"Kexample.com.+013+12345.private";
      key_file $"Kexample.com.+008+00777.key"
        [$"; This is a key-signing key, keyid 777, for example.com." ++ nl];
      private_file $"Kexample.com.+008+00777.private" ]
    true.

(** A directory with the key pairs of the zone [example.] and of the zone
    [example./b.], whose file name escapes the slash. *)
Definition escaped_dir : DnsSec :=
  mkDnsSec
    [ key_file $"Kexample.+013+00001.key" [];
      private_file $"Kexample.+013+00001.private";
      key_file $"Kexample.%2Fb.+013+00001.key" [];
      private_file $"Kexample.%2Fb.+013+00001.private" ]
    true.

(** A time-setting tool that fails. *)
Definition failing_tool (args : list str) : process :=
  mkprocess 1 $"" $"dnssec-settime: fatal: time value 2024 is invalid".

Definition key_2024 : KeyFile :=
  mkKeyFile $"Kexample.com.+013+12345.key" $"Kexample.com.+013+12345.private"
    $"Kexample.com.+013+12345" $"bind" $"bind" mode_0644
    $"example.com." 13 12345 $"ZSK" None
    (Some (midnight 2024 1 1)) (Some (midnight 2024 2 1))
    (Some (midnight 2024 6 1)) (Some (midnight 2024 7 1)).


(** ** date_str, key_settime and key_gentemplate *)

(** The external programs, as the functions below see them: started in the
    key directory with a list of arguments, a program leaves the directory
    with some contents and ends with an exit status and its output. *)
Definition programs : Type := list file -> list str -> list file * process.

(** One call of [_call] in a directory that the program may change.  The
    directory of the result is the one the program left. *)
Definition call_program (self : DnsSec) (run : programs) (args : list str)
  : DnsSec * (list stderr_line * result (list str)) :=
  let (files, p) := run (path self) args in
  (mkDnsSec files (echo self), _call self (fun _ => p) args).

Section Strftime.
(** [strftime("%Y")] writes a year from 1000 on as the number itself.  What
    it writes for an earlier year depends on the C library. *)
Variable small_year : Z -> str.

Definition strftime_Y (y : Z) : str :=
  if 1000 <=? y then str_of_int y else small_year y.

(** [date.strftime("%Y%m%d%H%M%S")] *)
Definition date_str (date : datetime) : str :=
  strftime_Y (year date)
    ++ format_0d 2 (month date) ++ format_0d 2 (day date)
    ++ format_0d 2 (hour date) ++ format_0d 2 (minute date)
    ++ format_0d 2 (second date).

(** [p += [flag, date_str(t)]] when [t is not None] *)
Definition time_flag (flag : str) (t : option datetime) : list str :=
  match t with
  | Some d => [flag; date_str d]
  | None => []
  end.

Definition settime_flags (publish activate inactivate delete : option datetime)
  : list str :=
  time_flag $"-P" publish ++ time_flag $"-A" activate
    ++ time_flag $"-I" inactivate ++ time_flag $"-D" delete.

Definition settime_args (key : KeyFile)
    (publish activate inactivate delete : option datetime) : list str :=
  [$"dnssec-settime"] ++ settime_flags publish activate inactivate delete
    ++ [name key].

(** [key_settime] returns nothing: what [_call] returns is dropped. *)
Definition key_settime (self : DnsSec) (run : programs) (key : KeyFile)
    (publish activate inactivate delete : option datetime)
  : DnsSec * (list stderr_line * result unit) :=
  match settime_flags publish activate inactivate delete with
  | [] => (self, ([], Ok tt))
  | _ :: _ =>
      let '(self', (log, r)) :=
        call_program self run
          (settime_args key publish activate inactivate delete) in
      (self', (log, _ <- r ;; Ok tt))
  end.

Definition keygen_args (template : KeyFile) : list str :=
  [$"dnssec-keygen"; $"-S"; name template; $"-i"; $"0"].

(** The file of the key directory with a given name. *)
Definition lookup (self : DnsSec) (name_ : str) : option file :=
  find (fun f => str_eqb (f_name f) name_) (path self).

(** [key_gentemplate].  The result is [None] when the last line printed by
    the key generator, with [.key] appended, is not the name of a file of the
    key directory: what the constructor raises for a path that does not exist
    is not modelled. *)
Definition key_gentemplate (self : DnsSec) (run : programs) (template : KeyFile)
    (publish activate inactivate delete : option datetime)
  : option (DnsSec * (list stderr_line * result KeyFile)) :=
  let '(self1, (log1, r1)) := call_program self run (keygen_args template) in
  match r1 with
  | Raise e => Some (self1, (log1, Raise e))
  | Ok pipe =>
      match index_last pipe with
      | Raise e => Some (self1, (log1, Raise e))
      | Ok last_line =>
          let new_file := last_line ++ $".key" in
          match lookup self1 new_file with
          | None => None
          | Some pk =>
              match KeyFile_init pk with
              | Raise e => Some (self1, (log1, Raise e))
              | Ok new_key =>
                  let '(self2, (log2, r2)) :=
                    key_settime self1 run new_key
                      publish activate inactivate delete in
                  Some (self2, (log1 ++ log2, _ <- r2 ;; Ok new_key))
              end
          end
      end
  end.
End Strftime.

(** ** dnskey_rr and DnsSec.__init__ *)

(** [s.split(sep)] for a separator of one or more characters: the
    occurrences of [sep] are found from the left and do not overlap.  [skip]
    counts the characters of an occurrence that are still to be passed. *)
Fixpoint split_str_from (sep : str) (skip : nat) (s : str) : list str :=
  match s with
  | [] => [[]]
  | c :: s' =>
      match skip with
      | S k => split_str_from sep k s'
      | O =>
          if startswith s sep
          then [] :: split_str_from sep (length sep - 1) s'
          else
            match split_str_from sep 0 s' with
            | w :: ws => (c :: w) :: ws
            | [] => [[c]]
            end
      end
  end.

Definition split_str (sep s : str) : list str := split_str_from sep 0 s.

(** [sep.join(l)] *)
Fixpoint join (sep : str) (l : list str) : str :=
  match l with
  | [] => []
  | x :: rest =>
      match rest with
      | [] => x
      | _ :: _ => x ++ sep ++ join sep rest
      end
  end.

(** A line that [dnskey_rr] reads a record from. *)
Definition is_record_line (line : str) : bool :=
  negb (startswith line $";") && contains $"DNSKEY" line.

(** The loop of [dnskey_rr], with the list [ret] built so far. *)
Fixpoint record_parts (lines : list str) (ret : list str)
  : result (list str) :=
  match lines with
  | [] => Ok ret
  | line :: rest =>
      if is_record_line line then
        part <- index (split_str $"DNSKEY" line) 1 ;;
        record_parts rest (ret ++ [strip is_space part])
      else record_parts rest ret
  end.

(** [dnskey_rr], given the file at [self.path_rr] as it is when the function
    is called. *)
Definition dnskey_rr (rr : file) : result str :=
  ret <- record_parts (f_lines rr) [] ;;
  Ok (strip is_space (join nl ret)).

(** [DnsSec(path)] *)
Definition DnsSec_init (path_ : list file) : DnsSec := mkDnsSec path_ true.

(** ** Further vocabulary *)

(** How far a state label is along the life of a key. *)
Definition stage_rank (label : str) : nat :=
  if str_eqb label $"DEL" then 5
  else if str_eqb label $"INAC" then 4
  else if str_eqb label $"ACT" then 3
  else if str_eqb label $"PUB" then 2
  else if str_eqb label $"" then 1
  else 0.

(** The position, counted from [n], of the last timestamp of a list that is
    set and at or before a reference time; 0 when there is none. *)
Fixpoint reached_from (n : nat) (t : datetime) (l : list (option datetime))
  : nat :=
  match l with
  | [] => 0
  | x :: l' =>
      match reached_from (S n) t l' with
      | O => if set_and_le x t then n else 0
      | S m => S m
      end
  end.

(** A datetime as the parser produces and the formatter writes it: a proper
    calendar date and time of day, in a year of four digits, without
    microseconds. *)
Definition four_digit_time (d : datetime) : Prop :=
  1000 <= year d <= 9999
  /\ 1 <= month d <= 12
  /\ 1 <= day d <= days_in_month (year d) (month d)
  /\ 0 <= hour d <= 23 /\ 0 <= minute d <= 59 /\ 0 <= second d <= 59
  /\ microsecond d = 0.

(** A check over the numbers [n], ..., [n + fuel - 1]. *)
Fixpoint all_from (p : Z -> bool) (fuel : nat) (n : Z) : bool :=
  match fuel with
  | O => true
  | S fuel' => if p n then all_from p fuel' (n + 1) else false
  end.

Definition word (w : str) : Prop :=
  w <> [] /\ forallb (fun c => negb (is_space c)) w = true.


(** The value that follows a flag in a list of options that each take one
    value. *)
Fixpoint flag_value (flag : str) (opts : list str) : option str :=
  match opts with
  | a :: v :: rest => if str_eqb a flag then Some v else flag_value flag rest
  | _ => None
  end.

(** The time that a list of options gives for a flag. *)
Definition flag_time (flag : str) (opts : list str) : option datetime :=
  match flag_value flag opts with
  | Some v => match strptime v with Ok t => Some t | Raise _ => None end
  | None => None
  end.


(** Text of ASCII characters only. *)
Definition is_ascii_text (s : str) : bool :=
  forallb (fun c => (nat_of_ascii c <? 128)%nat) s.


(** A number is written in [w] digits that read back as the number. *)
Definition written_in (w : nat) (s : str) (n : Z) : bool :=
  (length s =? w)%nat && all_digits s
  && match nat_literal s with
     | Some m => m =? n
     | None => false
     end.

(** ** Sample programs *)

(** A key generator that writes the key pair of example.com and prints its
    name, and a time-setting tool that succeeds without output. *)
Definition sample_tools : programs :=
  fun files args =>
    match args with
    | prog :: _ =>
        if str_eqb prog $"dnssec-keygen" then
          (files ++ [example_key;
                     private_file $"Kexample.com.+013+12345.private"],
           mkprocess 0 ($"Kexample.com.+013+12345" ++ nl)
             ($"Generating key pair." ++ nl))
        else (files, mkprocess 0 $"" $"")
    | [] => (files, mkprocess 2 $"" $"")
    end.


(** Tools that fail whatever they are asked. *)
Definition broken_tools : programs :=
  fun files args => (files, failing_tool args).

(** Tools that succeed and print an empty line. *)
Definition silent_tools : programs :=
  fun files args => (files, mkprocess 0 nl $"").

(** * Properties *)

(** ** Lexicographic comparison is a total order *)

Section LexOrder.
Context {A : Type} (cmp : A -> A -> comparison).
Hypothesis cmp_eq : forall x y, cmp x y = Eq <-> x = y.
Hypothesis cmp_opp : forall x y, cmp y x = CompOpp (cmp x y).
Hypothesis cmp_lt_trans :
  forall x y z, cmp x y = Lt -> cmp y z = Lt -> cmp x z = Lt.

Lemma lex_cmp_eq (a b : list A) : lex_cmp cmp a b = Eq <-> a = b.
Proof.
  revert b; induction a as [|x a IH]; intros [|y b]; simpl;
    try (split; [discriminate | congruence]); try tauto.
  destruct (cmp x y) eqn:E.
  - apply cmp_eq in E; subst y. rewrite IH. split; congruence.
  - split; [discriminate|]. intros H; injection H as -> _.
    assert (cmp y y = Eq) by now apply cmp_eq. congruence.
  - split; [discriminate|]. intros H; injection H as -> _.
    assert (cmp y y = Eq) by now apply cmp_eq. congruence.
Qed.

Lemma lex_cmp_opp (a b : list A) :
  lex_cmp cmp b a = CompOpp (lex_cmp cmp a b).
Proof.
  revert b; induction a as [|x a IH]; intros [|y b]; simpl; auto.
  rewrite (cmp_opp x y). destruct (cmp x y); simpl; auto.
Qed.

Lemma lex_cmp_lt_trans (a b c : list A) :
  lex_cmp cmp a b = Lt -> lex_cmp cmp b c = Lt -> lex_cmp cmp a c = Lt.
Proof.
  revert b c; induction a as [|x a IH]; intros [|y b] [|z c]; simpl;
    try discriminate; auto.
  destruct (cmp x y) eqn:Exy; try discriminate.
  - apply cmp_eq in Exy; subst y.
    destruct (cmp x z); try discriminate; eauto.
  - intros _. destruct (cmp y z) eqn:Eyz; try discriminate.
    + apply cmp_eq in Eyz; subst z. now rewrite Exy.
    + now rewrite (cmp_lt_trans _ _ _ Exy Eyz).
Qed.

Lemma lex_cmp_le_trans (a b c : list A) :
  lex_cmp cmp a b <> Gt -> lex_cmp cmp b c <> Gt -> lex_cmp cmp a c <> Gt.
Proof.
  intros Hab Hbc.
  destruct (lex_cmp cmp a b) eqn:Eab; try congruence.
  - apply lex_cmp_eq in Eab; now subst b.
  - destruct (lex_cmp cmp b c) eqn:Ebc; try congruence.
    + apply lex_cmp_eq in Ebc; subst c. now rewrite Eab.
    + now rewrite (lex_cmp_lt_trans _ _ _ Eab Ebc).
Qed.
End LexOrder.

(** ** The insertion sort behind [sorted] *)

Section SortedBy.
Context {A K : Type} (key : A -> K) (cmp : K -> K -> comparison).
Hypothesis cmp_opp : forall x y, cmp y x = CompOpp (cmp x y).
Hypothesis cmp_le_trans :
  forall x y z, cmp x y <> Gt -> cmp y z <> Gt -> cmp x z <> Gt.

Let ltb (a b : K) : bool := match cmp a b with Lt => true | _ => false end.
Let le (x y : A) : Prop := cmp (key x) (key y) <> Gt.

Lemma insert_by_Permutation (x : A) (l : list A) :
  Permutation (x :: l) (insert_by key ltb x l).
Proof.
  induction l as [|y l IH]; simpl; auto.
  destruct (ltb (key y) (key x)); auto.
  rewrite perm_swap. now constructor.
Qed.

Lemma sorted_by_Permutation (l : list A) :
  Permutation l (sorted_by key ltb l).
Proof.
  induction l as [|x l IH]; simpl; auto.
  rewrite <- insert_by_Permutation. now constructor.
Qed.

Lemma insert_by_HdRel (a x : A) (l : list A) :
  le a x -> HdRel le a l -> HdRel le a (insert_by key ltb x l).
Proof.
  intros Hax Hal. destruct l as [|y l]; simpl.
  - now constructor.
  - destruct (ltb (key y) (key x)); constructor; auto.
    now inversion Hal.
Qed.

Lemma insert_by_Sorted (x : A) (l : list A) :
  Sorted le l -> Sorted le (insert_by key ltb x l).
Proof.
  induction 1 as [|y l Hs IH Hhd]; simpl.
  - repeat constructor.
  - unfold ltb at 1. destruct (cmp (key y) (key x)) eqn:E.
    + constructor; [now constructor|]. constructor. unfold le.
      rewrite cmp_opp, E. discriminate.
    + constructor; auto. apply insert_by_HdRel; auto.
      unfold le. rewrite E. discriminate.
    + constructor; [now constructor|]. constructor. unfold le.
      rewrite cmp_opp, E. discriminate.
Qed.

Lemma sorted_by_Sorted (l : list A) : Sorted le (sorted_by key ltb l).
Proof.
  induction l as [|x l IH]; simpl; [constructor|].
  now apply insert_by_Sorted.
Qed.

Lemma sorted_by_fixed (l : list A) :
  Sorted le l -> sorted_by key ltb l = l.
Proof.
  induction 1 as [|x l Hs IH Hhd]; simpl; auto.
  rewrite IH. destruct Hhd as [|y l' Hxy]; simpl; auto.
  unfold ltb. rewrite cmp_opp. unfold le in Hxy.
  destruct (cmp (key x) (key y)); simpl; congruence.
Qed.
End SortedBy.

(** ** The order on datetimes *)

Lemma Z_compare_opp (x y : Z) : (y ?= x) = CompOpp (x ?= y).
Proof. apply Z.compare_antisym. Qed.

Lemma Z_compare_lt_trans (x y z : Z) :
  (x ?= y) = Lt -> (y ?= z) = Lt -> (x ?= z) = Lt.
Proof. rewrite !Z.compare_lt_iff. lia. Qed.

Lemma dt_tuple_inj (a b : datetime) : dt_tuple a = dt_tuple b -> a = b.
Proof.
  destruct a, b; unfold dt_tuple; simpl. intros H; injection H; congruence.
Qed.

Lemma dt_cmp_eq (a b : datetime) : dt_cmp a b = Eq <-> a = b.
Proof.
  unfold dt_cmp, tuple_cmp. rewrite (lex_cmp_eq Z.compare Z.compare_eq_iff).
  split; [apply dt_tuple_inj | congruence].
Qed.

Lemma dt_cmp_opp (a b : datetime) : dt_cmp b a = CompOpp (dt_cmp a b).
Proof. apply (lex_cmp_opp Z.compare Z_compare_opp). Qed.

Lemma dt_cmp_le_trans (a b c : datetime) :
  dt_cmp a b <> Gt -> dt_cmp b c <> Gt -> dt_cmp a c <> Gt.
Proof.
  apply (lex_cmp_le_trans Z.compare Z.compare_eq_iff Z_compare_lt_trans).
Qed.

Lemma dt_le_cmp (a b : datetime) : dt_le a b <-> dt_cmp a b <> Gt.
Proof.
  unfold dt_le, dt_leb. destruct (dt_cmp a b); split; congruence.
Qed.

Lemma dt_gtb_lt (a b : datetime) : dt_gtb a b = true <-> dt_lt b a.
Proof.
  unfold dt_lt, dt_gtb, dt_ltb. rewrite (dt_cmp_opp a b).
  destruct (dt_cmp a b); simpl; split; congruence.
Qed.

Lemma dt_le_not_lt (a b : datetime) : dt_le a b <-> ~ dt_lt b a.
Proof.
  unfold dt_le, dt_lt, dt_leb, dt_ltb. rewrite (dt_cmp_opp a b).
  destruct (dt_cmp a b); simpl; split; congruence.
Qed.

Lemma dt_le_refl (a : datetime) : dt_le a a.
Proof.
  apply dt_le_cmp. replace (dt_cmp a a) with Eq; [discriminate|].
  symmetry. now apply dt_cmp_eq.
Qed.

Lemma dt_le_trans (a b c : datetime) : dt_le a b -> dt_le b c -> dt_le a c.
Proof. rewrite !dt_le_cmp. apply dt_cmp_le_trans. Qed.

Lemma dt_le_antisym (a b : datetime) : dt_le a b -> dt_le b a -> a = b.
Proof.
  rewrite !dt_le_cmp, (dt_cmp_opp a b). intros H1 H2. apply dt_cmp_eq.
  destruct (dt_cmp a b); simpl in *; congruence.
Qed.

Lemma dt_eqb_eq (a b : datetime) : dt_eqb a b = true <-> a = b.
Proof.
  rewrite <- dt_cmp_eq. unfold dt_eqb.
  destruct (dt_cmp a b); split; congruence.
Qed.

Lemma list_eqb_dt_eq (a b : list datetime) :
  list_eqb dt_eqb a b = true <-> a = b.
Proof.
  revert b; induction a as [|x a IH]; intros [|y b]; simpl;
    try (split; congruence).
  rewrite andb_true_iff, dt_eqb_eq, IH.
  split; [intros [-> ->]; reflexivity | intros [= -> ->]; auto].
Qed.

(** ** state *)

Lemma set_and_le_iff (x : option datetime) (t : datetime) :
  set_and_le x t = true <-> at_or_before x t.
Proof.
  unfold at_or_before. destruct x as [d|]; simpl.
  - split; [eauto|]. now intros (d' & [= <-] & H).
  - split; [discriminate|]. now intros (d' & H & _).
Qed.

Lemma set_and_gt_iff (x : option datetime) (t : datetime) :
  set_and_gt x t = true <-> strictly_after x t.
Proof.
  unfold strictly_after. destruct x as [d|]; simpl.
  - rewrite dt_gtb_lt. split; [eauto|]. now intros (d' & [= <-] & H).
  - split; [discriminate|]. now intros (d' & H & _).
Qed.

Ltac decide_reached :=
  repeat match goal with
  | H : at_or_before _ _ |- _ => apply set_and_le_iff in H
  | H : ~ at_or_before _ _ |- _ =>
      rewrite <- set_and_le_iff in H; apply not_true_is_false in H
  | H : strictly_after _ _ |- _ => apply set_and_gt_iff in H
  | H : ~ strictly_after _ _ |- _ =>
      rewrite <- set_and_gt_iff in H; apply not_true_is_false in H
  end.

(** C1.  [state] reports the first stage of the chain delete, inactive,
    active, publish that is set and at or before the reference time; when
    none is, it reports FUT if the creation time is set and strictly after
    the reference time, and the empty label otherwise.  For the key published
    2024-01-01, activated 2024-02-01, inactivated 2024-06-01 and deleted
    2024-07-01 (creation time unset) the labels at 2023-12-01, 2024-01-15,
    2024-03-01, 2024-06-15 and 2024-08-01 are the empty one, PUB, ACT, INAC
    and DEL.  The last four do not depend on the creation time; the first is
    the empty one unless the creation time is set after 2023-12-01, when it
    is FUT. *)
Theorem state_priority_chain :
  (forall (k : KeyFile) (t : datetime),
      In (state k t) [$"DEL"; $"INAC"; $"ACT"; $"PUB"; $"FUT"; $""]
      /\ (at_or_before (d_delete k) t -> state k t = $"DEL")
      /\ (~ at_or_before (d_delete k) t ->
          at_or_before (d_inactive k) t -> state k t = $"INAC")
      /\ (~ at_or_before (d_delete k) t ->
          ~ at_or_before (d_inactive k) t ->
          at_or_before (d_active k) t -> state k t = $"ACT")
      /\ (~ at_or_before (d_delete k) t ->
          ~ at_or_before (d_inactive k) t ->
          ~ at_or_before (d_active k) t ->
          at_or_before (d_publish k) t -> state k t = $"PUB")
      /\ (~ at_or_before (d_delete k) t ->
          ~ at_or_before (d_inactive k) t ->
          ~ at_or_before (d_active k) t ->
          ~ at_or_before (d_publish k) t ->
          strictly_after (d_create k) t -> state k t = $"FUT")
      /\ (~ at_or_before (d_delete k) t ->
          ~ at_or_before (d_inactive k) t ->
          ~ at_or_before (d_active k) t ->
          ~ at_or_before (d_publish k) t ->
          ~ strictly_after (d_create k) t -> state k t = $""))
  /\ (forall rr pk n o g m z a i ty,
        let k := mkKeyFile rr pk n o g m z a i ty None
                   (Some (midnight 2024 1 1)) (Some (midnight 2024 2 1))
                   (Some (midnight 2024 6 1)) (Some (midnight 2024 7 1)) in
        state k (midnight 2023 12 1) = $""
        /\ state k (midnight 2024 1 15) = $"PUB"
        /\ state k (midnight 2024 3 1) = $"ACT"
        /\ state k (midnight 2024 6 15) = $"INAC"
        /\ state k (midnight 2024 8 1) = $"DEL")
  /\ (forall rr pk n o g m z a i ty c,
        let k := mkKeyFile rr pk n o g m z a i ty c
                   (Some (midnight 2024 1 1)) (Some (midnight 2024 2 1))
                   (Some (midnight 2024 6 1)) (Some (midnight 2024 7 1)) in
        (~ strictly_after c (midnight 2023 12 1) ->
           state k (midnight 2023 12 1) = $"")
        /\ (strictly_after c (midnight 2023 12 1) ->
            state k (midnight 2023 12 1) = $"FUT")
        /\ state k (midnight 2024 1 15) = $"PUB"
        /\ state k (midnight 2024 3 1) = $"ACT"
        /\ state k (midnight 2024 6 15) = $"INAC"
        /\ state k (midnight 2024 8 1) = $"DEL").
Proof.
  split; [|split].
  - intros k t. unfold state.
    repeat split; intros; decide_reached;
      repeat match goal with H : _ = _ |- _ => rewrite H end; auto.
    repeat match goal with
           | |- context [if ?b then _ else _] => destruct b
           end; simpl; tauto.
  - intros. repeat split.
  - intros rr pk n o g m z a i ty c k. split; [|split].
    + intros H. rewrite <- set_and_gt_iff in H. apply not_true_is_false in H.
      unfold state, k. cbn [d_delete d_inactive d_active d_publish d_create].
      now rewrite H.
    + intros H. rewrite <- set_and_gt_iff in H.
      unfold state, k. cbn [d_delete d_inactive d_active d_publish d_create].
      now rewrite H.
    + repeat split.
Qed.

(** ** next_change *)

Lemma Sorted_dt_le_cmp (l : list datetime) :
  Sorted dt_le l <-> Sorted (fun x y => dt_cmp x y <> Gt) l.
Proof.
  split; induction 1 as [|x l Hs IH Hhd]; constructor; auto;
    destruct Hhd; constructor; now apply dt_le_cmp.
Qed.

Lemma sorted_dt_fixed (l : list datetime) :
  sorted_by (fun d => d) dt_ltb l = l <-> Sorted dt_le l.
Proof.
  rewrite Sorted_dt_le_cmp. split.
  - intros <-.
    apply (sorted_by_Sorted (fun d : datetime => d) dt_cmp dt_cmp_opp).
  - apply (sorted_by_fixed (fun d : datetime => d) dt_cmp dt_cmp_opp).
Qed.

Lemma first_after_none (t : datetime) (l : list datetime) :
  first_after t l = NoChange <-> (forall d, In d l -> ~ dt_lt t d).
Proof.
  induction l as [|x l IH]; simpl.
  - split; auto.
  - destruct (dt_gtb x t) eqn:E.
    + split; [discriminate|]. intros H.
      apply dt_gtb_lt in E. exfalso. eapply H; eauto.
    + rewrite IH. split.
      * intros H d [<-|Hd]; auto. rewrite <- dt_gtb_lt. congruence.
      * intros H d Hd. apply H. now right.
Qed.

Lemma first_after_some (t d : datetime) (l : list datetime) :
  StronglySorted dt_le l -> first_after t l = ChangeAt d ->
  In d l /\ dt_lt t d /\ (forall d', In d' l -> dt_lt t d' -> dt_le d d').
Proof.
  induction 1 as [|x l Hs IH Hall]; simpl; [discriminate|].
  destruct (dt_gtb x t) eqn:E.
  - intros [= <-]. apply dt_gtb_lt in E. repeat split; auto.
    intros d' [<-|Hd'] _; [apply dt_le_refl|].
    rewrite Forall_forall in Hall. auto.
  - intros H. destruct (IH H) as (Hin & Hlt & Hmin). repeat split; auto.
    intros d' [<-|Hd'] Hd't; auto.
    apply dt_gtb_lt in Hd't. congruence.
Qed.

Lemma first_after_cases (t : datetime) (l : list datetime) :
  first_after t l = NoChange \/ exists d, first_after t l = ChangeAt d.
Proof.
  induction l as [|x l IH]; simpl; auto.
  destruct (dt_gtb x t); eauto.
Qed.

(** C2.  When the set timestamps among publish, activate, inactivate and
    delete, in that order, are non-decreasing, [next_change] returns the
    smallest of them that is strictly after the reference time, or [None]
    when none is.  When they are not, as when the activation time is after
    the inactivation time, it returns the inconsistency sentinel, whatever
    the reference time; no branch raises.  The creation time has no influence
    on the result. *)
Theorem next_change_spec (k : KeyFile) (t : datetime) :
  assigned k =
    filter_set [d_publish k; d_active k; d_inactive k; d_delete k]
  /\ (Sorted dt_le (assigned k) ->
        (exists d, next_change k t = ChangeAt d
                   /\ In d (assigned k) /\ dt_lt t d
                   /\ forall d', In d' (assigned k) -> dt_lt t d' -> dt_le d d')
        \/ (next_change k t = NoChange
            /\ forall d, In d (assigned k) -> ~ dt_lt t d))
  /\ (~ Sorted dt_le (assigned k) -> next_change k t = InconsistentDates)
  /\ (forall a i, d_active k = Some a -> d_inactive k = Some i ->
                  dt_lt i a -> next_change k t = InconsistentDates)
  /\ (forall c, next_change (set_d_create k c) t = next_change k t).
Proof.
  split; [reflexivity|].
  assert (Hbad : ~ Sorted dt_le (assigned k) ->
                 next_change k t = InconsistentDates).
  { intros Hn. unfold next_change.
    destruct (list_eqb dt_eqb _ (assigned k)) eqn:E; auto.
    apply list_eqb_dt_eq in E. apply sorted_dt_fixed in E. contradiction. }
  split; [|split; [exact Hbad|split]]; [| |reflexivity].
  2:{ intros a i Ha Hi Hlt. apply Hbad. unfold assigned. rewrite Ha, Hi.
      intros Hs. apply (proj1 (dt_le_not_lt a i)); [|exact Hlt].
      destruct (d_publish k); cbn [filter_set] in Hs.
      - inversion Hs as [|? ? Hs' _]; subst.
        inversion Hs' as [|? ? _ Hhd]; subst.
        destruct (d_delete k); cbn [filter_set] in Hhd; now inversion Hhd.
      - inversion Hs as [|? ? _ Hhd]; subst.
        destruct (d_delete k); cbn [filter_set] in Hhd; now inversion Hhd. }
  unfold next_change. repeat split.
  - intros Hs. pose proof Hs as Hfix. apply sorted_dt_fixed in Hfix.
    rewrite Hfix.
    replace (list_eqb dt_eqb (assigned k) (assigned k)) with true
      by (symmetry; now apply list_eqb_dt_eq).
    destruct (first_after_cases t (assigned k)) as [E|[d E]].
    + right. split; auto. now apply first_after_none.
    + left. exists d. split; auto. apply first_after_some; auto.
      apply Sorted_StronglySorted; auto. intros a b c. apply dt_le_trans.
Qed.

(** ** Reading the lines of a key file *)

Local Arguments list_ascii_of_string : simpl never.

Lemma read_line_kind (k : KeyFile) (l : str) :
  read_line k l =
    match kind_of l with
    | Skipped => Ok k
    | Created => d <- date_part l ;; Ok (set_d_create k (Some d))
    | Publish => d <- date_part l ;; Ok (set_d_publish k (Some d))
    | Activate => d <- date_part l ;; Ok (set_d_active k (Some d))
    | Inactive => d <- date_part l ;; Ok (set_d_inactive k (Some d))
    | Delete => d <- date_part l ;; Ok (set_d_delete k (Some d))
    | Description => read_description k l
    end.
Proof.
  unfold read_line, kind_of.
  repeat match goal with
         | |- context [if ?b then _ else _] => destruct b
         end; reflexivity.
Qed.

Lemma same_identity_refl (k : KeyFile) : same_identity k k.
Proof. repeat split. Qed.

Lemma same_identity_trans (a b c : KeyFile) :
  same_identity a b -> same_identity b c -> same_identity a c.
Proof. unfold same_identity; intuition congruence. Qed.

Lemma str_eqb_eq (a b : str) : str_eqb a b = true <-> a = b.
Proof.
  unfold str_eqb. revert b.
  induction a as [|c a IH]; intros [|c' b]; simpl; try (split; congruence).
  rewrite andb_true_iff, Ascii.eqb_eq, IH.
  split; [intros [-> ->]; reflexivity | intros [= -> ->]; auto].
Qed.

Lemma str_eqb_refl (a : str) : str_eqb a a = true.
Proof. now apply str_eqb_eq. Qed.

Lemma bind_ok {A B} (r : result A) (f : A -> result B) (b : B) :
  bind r f = Ok b -> exists a, r = Ok a /\ f a = Ok b.
Proof. destruct r as [a|e]; simpl; [eauto | discriminate]. Qed.

Lemma read_description_ok (k k' : KeyFile) (l : str) :
  read_description k l = Ok k' ->
  exists w i z,
    purpose_word l = Some w /\ recognized w = true
    /\ embedded_keyid l = Some i /\ i = keyid k
    /\ embedded_zone l = Some z /\ z = zone k
    /\ k' = set_type k (if str_eqb w $"zone-signing" then $"ZSK" else $"KSK").
Proof.
  unfold read_description, purpose_word, recognized, embedded_keyid,
    embedded_zone, index, index_last.
  intros H.
  apply bind_ok in H as (w4 & Hw4 & H).
  apply bind_ok in H as (k1 & Hk1 & H).
  apply bind_ok in H as (w7 & Hw7 & H).
  apply bind_ok in H as (i & Hi & H).
  destruct (keyid k1 =? i) eqn:Ei; [|discriminate]. cbn [negb] in H.
  apply bind_ok in H as (wl & Hwl & H).
  destruct (str_eqb (zone k1) wl) eqn:Ez; [|discriminate]. cbn [negb] in H.
  injection H as <-.
  destruct (nth_error (split_ws l) 4); [|discriminate].
  injection Hw4 as ->.
  destruct (nth_error (split_ws l) 7); [|discriminate].
  injection Hw7 as ->. rewrite Hi.
  destruct (rev (split_ws l)); [discriminate|]. injection Hwl as ->.
  apply Z.eqb_eq in Ei.
  assert (Hz : zone k1 = wl) by now apply str_eqb_eq.
  exists w4, i, wl.
  destruct (str_eqb w4 $"zone-signing").
  - injection Hk1 as <-. repeat split; auto.
  - destruct (str_eqb w4 $"key-signing"); [|discriminate].
    injection Hk1 as <-. repeat split; auto.
Qed.

Lemma read_description_cases (k k' : KeyFile) (l : str) :
  read_description k l = Ok k' ->
  k' = set_type k $"ZSK" \/ k' = set_type k $"KSK".
Proof.
  intros H. apply read_description_ok in H as (w & i & z & H).
  destruct H as (_ & _ & _ & _ & _ & _ & ->).
  destruct (str_eqb w $"zone-signing"); auto.
Qed.

Lemma read_line_identity (k k' : KeyFile) (l : str) :
  read_line k l = Ok k' -> same_identity k k'.
Proof.
  rewrite read_line_kind. destruct (kind_of l);
    try (destruct (date_part l); simpl; [|discriminate]);
    try (intros [= <-]; repeat split).
  intros H. apply read_description_cases in H. destruct H; subst k';
    repeat split.
Qed.

Lemma read_lines_identity (ls : list str) (k k' : KeyFile) :
  read_lines k ls = Ok k' -> same_identity k k'.
Proof.
  revert k; induction ls as [|l ls IH]; simpl; intros k.
  - intros [= <-]. apply same_identity_refl.
  - destruct (read_line k l) as [k1|] eqn:E; simpl; [|discriminate].
    intros H. eapply same_identity_trans; eauto using read_line_identity.
Qed.

Lemma read_lines_app (l1 l2 : list str) (k : KeyFile) :
  read_lines k (l1 ++ l2) = (k1 <- read_lines k l1 ;; read_lines k1 l2).
Proof.
  revert k; induction l1 as [|l l1 IH]; simpl; intros k; auto.
  destruct (read_line k l); simpl; auto.
Qed.

(** Whether a line is accepted depends on the zone and key tag of the record
    only, not on what earlier lines have assigned. *)
Lemma read_description_accepts (k k' : KeyFile) (l : str) :
  zone k = zone k' -> keyid k = keyid k' ->
  (exists r, read_description k l = Ok r) ->
  exists r', read_description k' l = Ok r'.
Proof.
  intros Hz Hi [r H]. unfold read_description in *.
  apply bind_ok in H as (w4 & E4 & H).
  apply bind_ok in H as (k1 & Hk1 & H).
  apply bind_ok in H as (w7 & E7 & H).
  apply bind_ok in H as (i & Eint & H).
  assert (Hid : zone k1 = zone k /\ keyid k1 = keyid k).
  { destruct (str_eqb w4 $"zone-signing"); [now injection Hk1 as <-|].
    destruct (str_eqb w4 $"key-signing"); [now injection Hk1 as <-|].
    discriminate. }
  destruct Hid as [Hz1 Hi1]. rewrite Hz1, Hi1 in H.
  destruct (negb (keyid k =? i)) eqn:Ei; [discriminate|].
  apply bind_ok in H as (wl & El & H).
  destruct (negb (str_eqb (zone k) wl)) eqn:Ez; [discriminate|].
  rewrite E4; cbn [bind].
  destruct (str_eqb w4 $"zone-signing");
    [|destruct (str_eqb w4 $"key-signing"); [|discriminate]];
    cbn [bind]; rewrite E7; cbn [bind]; rewrite Eint;
    cbn [bind set_type keyid zone]; rewrite <- Hi, <- Hz, Ei, El;
    cbn [bind]; rewrite Ez; eauto.
Qed.

Lemma read_line_accepts (k k' : KeyFile) (l : str) :
  zone k = zone k' -> keyid k = keyid k' ->
  (exists r, read_line k l = Ok r) -> exists r', read_line k' l = Ok r'.
Proof.
  intros Hz Hi. rewrite !read_line_kind. destruct (kind_of l);
    try (destruct (date_part l); simpl; [eauto | now intros []]); eauto.
  now apply read_description_accepts.
Qed.

Lemma read_lines_accepts (ls : list str) (k : KeyFile) :
  (forall l, In l ls -> exists r, read_line k l = Ok r) <->
  (exists k', read_lines k ls = Ok k').
Proof.
  revert k; induction ls as [|l ls IH]; simpl; intros k.
  - split; eauto. intros _ l [].
  - split.
    + intros H. destruct (H l) as [k1 E]; auto. rewrite E; simpl.
      apply IH. intros l' Hl'. pose proof (read_line_identity _ _ _ E) as Hid.
      apply (read_line_accepts k); [apply Hid | apply Hid | auto].
    + intros [k' H].
      destruct (read_line k l) as [k1|] eqn:E; simpl in H; [|discriminate].
      pose proof (read_line_identity _ _ _ E) as Hid.
      intros l' [<-|Hl']; eauto.
      apply (read_line_accepts k1); [symmetry; apply Hid | symmetry; apply Hid |].
      eapply IH; eauto.
Qed.

Lemma KeyFile_init_prefix (f : file) (k0 k1 : KeyFile)
      (pre post : list str) (l : str) :
  parse_name f = Ok k0 -> f_lines f = pre ++ l :: post ->
  read_lines k0 pre = Ok k1 ->
  KeyFile_init f = (k2 <- read_line k1 l ;; read_lines k2 post).
Proof.
  intros Hn Hl Hp. unfold KeyFile_init. rewrite Hn, Hl; simpl.
  rewrite read_lines_app, Hp. reflexivity.
Qed.

(** ** The key type *)

Lemma parse_name_type (f : file) (k0 : KeyFile) :
  parse_name f = Ok k0 -> type k0 = $"".
Proof.
  unfold parse_name. intros H.
  apply bind_ok in H as (ff0 & _ & H).
  apply bind_ok in H as (a & _ & H).
  apply bind_ok in H as (i & _ & H).
  now injection H as <-.
Qed.

Lemma read_line_type (k k' : KeyFile) (l : str) :
  read_line k l = Ok k' ->
  (kind_of l <> Description -> type k' = type k)
  /\ (kind_of l = Description -> type k' = $"ZSK" \/ type k' = $"KSK").
Proof.
  rewrite read_line_kind. destruct (kind_of l);
    try (destruct (date_part l); simpl; [|discriminate]);
    try (intros [= <-]; split; [reflexivity | discriminate]).
  intros H. split; [congruence|]. intros _.
  apply read_description_cases in H as [-> | ->]; auto.
Qed.

Lemma read_lines_type (ls : list str) (k k' : KeyFile) :
  read_lines k ls = Ok k' ->
  (type k' = type k \/ type k' = $"ZSK" \/ type k' = $"KSK")
  /\ ((forall l, In l ls -> kind_of l <> Description) -> type k' = type k).
Proof.
  revert k; induction ls as [|l ls IH]; simpl; intros k H.
  - injection H as <-. auto.
  - apply bind_ok in H as (k1 & E & H).
    destruct (IH _ H) as [IH1 IH2].
    destruct (read_line_type _ _ _ E) as [T1 T2]. split.
    + destruct (kind_eqb (kind_of l) Description) eqn:Ek.
      * assert (kind_of l = Description) as Hk
          by (destruct (kind_of l); try discriminate; reflexivity).
        specialize (T2 Hk). intuition congruence.
      * assert (kind_of l <> Description) as Hk
          by (intros Hk; rewrite Hk in Ek; discriminate).
        specialize (T1 Hk). intuition congruence.
    + intros Hno. rewrite IH2, T1; auto.
Qed.

Lemma KeyFile_init_type (f : file) (k : KeyFile) :
  KeyFile_init f = Ok k -> In (type k) [$"ZSK"; $"KSK"; $""].
Proof.
  intros H. apply bind_ok in H as (k0 & Hn & Hr).
  apply parse_name_type in Hn. apply read_lines_type in Hr as [Hr _].
  rewrite Hn in Hr. simpl. intuition.
Qed.

(** C7 (as amended).  The type of a constructed record is ZSK, KSK or
    empty.  It is empty when no line of the file is a descriptive comment,
    and construction then succeeds as soon as the file name and the date
    lines parse.  A descriptive comment whose purpose word is not recognized,
    reached without an earlier failure, makes construction fail with the
    unrecognized-type error: no record, with an empty type or other, is
    built. *)
Theorem key_type_values (f : file) :
  (forall k, KeyFile_init f = Ok k -> In (type k) [$"ZSK"; $"KSK"; $""])
  /\ (forall k, KeyFile_init f = Ok k ->
        (forall l, In l (f_lines f) -> kind_of l <> Description) ->
        type k = $"")
  /\ (forall k0, parse_name f = Ok k0 ->
        (forall l, In l (f_lines f) -> kind_of l <> Description) ->
        (forall l, In l (f_lines f) -> is_date_kind (kind_of l) = true ->
                   exists d, date_part l = Ok d) ->
        exists k, KeyFile_init f = Ok k /\ type k = $"")
  /\ (forall k0 pre l post k1 w,
        parse_name f = Ok k0 -> f_lines f = pre ++ l :: post ->
        read_lines k0 pre = Ok k1 ->
        kind_of l = Description ->
        purpose_word l = Some w -> recognized w = false ->
        KeyFile_init f = Raise ValueError_key_type
        /\ classify ValueError_key_type = UnrecognizedTypeError).
Proof.
  assert (Hinit : forall k, KeyFile_init f = Ok k ->
            exists k0, parse_name f = Ok k0 /\ read_lines k0 (f_lines f) = Ok k).
  { intros k H. now apply bind_ok in H. }
  split; [|split; [|split]].
  - apply KeyFile_init_type.
  - intros k H Hno. destruct (Hinit _ H) as (k0 & Hn & Hr).
    apply parse_name_type in Hn. apply read_lines_type in Hr as [_ Hr].
    rewrite Hr; auto.
  - intros k0 Hn Hno Hdates.
    assert (exists k, read_lines k0 (f_lines f) = Ok k) as [k Hk].
    { apply read_lines_accepts. intros l Hl. rewrite read_line_kind.
      specialize (Hno l Hl). specialize (Hdates l Hl).
      destruct (kind_of l); try congruence; eauto;
        destruct Hdates as [d ->]; simpl; eauto. }
    exists k. unfold KeyFile_init. rewrite Hn. simpl. split; auto.
    apply read_lines_type in Hk as [_ Hk]. rewrite Hk; auto.
    now apply parse_name_type in Hn.
  - intros k0 pre l post k1 w Hn Hl Hp Hk Hw Hr.
    rewrite (KeyFile_init_prefix _ _ _ _ _ _ Hn Hl Hp).
    rewrite read_line_kind, Hk. unfold read_description, index.
    unfold purpose_word in Hw. rewrite Hw. cbn [bind].
    unfold recognized in Hr. apply orb_false_iff in Hr as [-> ->].
    split; reflexivity.
Qed.

(** ** The identity cross-check *)

Lemma read_description_checks (k : KeyFile) (l w z : str) (tag : Z) :
  purpose_word l = Some w -> recognized w = true ->
  embedded_keyid l = Some tag -> embedded_zone l = Some z ->
  read_description k l =
    if negb (keyid k =? tag) then Raise ValueError_keyid
    else if negb (str_eqb (zone k) z) then Raise ValueError_zone
    else Ok (set_type k (if str_eqb w $"zone-signing" then $"ZSK" else $"KSK")).
Proof.
  unfold purpose_word, recognized, embedded_keyid, embedded_zone.
  intros Hw Hr Hi Hz. unfold read_description, index, index_last.
  rewrite Hw. cbn [bind].
  destruct (nth_error (split_ws l) 7) as [w7|]; [|discriminate].
  destruct (int (removelast w7)) as [i|] eqn:Ei; [|discriminate].
  injection Hi as ->.
  destruct (rev (split_ws l)) as [|wl ?]; [discriminate|]. injection Hz as ->.
  destruct (str_eqb w $"zone-signing").
  - cbn [bind]. rewrite Ei. cbn [bind set_type keyid zone].
    destruct (negb (keyid k =? tag)); auto.
  - simpl in Hr. rewrite Hr. cbn [bind]. rewrite Ei.
    cbn [bind set_type keyid zone].
    destruct (negb (keyid k =? tag)); auto.
Qed.

(** C3 (as amended).  Take a key file whose name parses and whose lines up
    to a descriptive comment are read without error, the comment naming a
    recognized key purpose, a key tag and a zone.  If the tag differs from
    the key tag of the file name, or the zone from the zone of the file name,
    construction fails with the identity-mismatch error.  If both agree the
    comment raises nothing: construction goes on with the remaining lines and
    succeeds when each of them is accepted. *)
Theorem identity_cross_check
    (f : file) (k0 k1 : KeyFile) (pre post : list str) (l w z : str) (tag : Z) :
  parse_name f = Ok k0 ->
  f_lines f = pre ++ l :: post ->
  read_lines k0 pre = Ok k1 ->
  kind_of l = Description ->
  purpose_word l = Some w -> recognized w = true ->
  embedded_keyid l = Some tag -> embedded_zone l = Some z ->
  (tag <> keyid k0 \/ z <> zone k0 ->
     exists e, KeyFile_init f = Raise e /\ classify e = IdentityMismatchError)
  /\ (tag = keyid k0 -> z = zone k0 ->
      (exists k2, read_line k1 l = Ok k2
                  /\ KeyFile_init f = read_lines k2 post)
      /\ ((forall l', In l' post -> exists r, read_line k0 l' = Ok r) ->
          exists k, KeyFile_init f = Ok k)).
Proof.
  intros Hn Hl Hp Hk Hw Hr Ht Hz.
  pose proof (read_lines_identity _ _ _ Hp) as Hid.
  assert (Hzone : zone k1 = zone k0) by (symmetry; apply Hid).
  assert (Hkeyid : keyid k1 = keyid k0) by (symmetry; apply Hid).
  rewrite (KeyFile_init_prefix _ _ _ _ _ _ Hn Hl Hp).
  rewrite read_line_kind, Hk.
  rewrite (read_description_checks k1 _ _ _ _ Hw Hr Ht Hz), Hzone, Hkeyid.
  split.
  - intros Hne. destruct (keyid k0 =? tag) eqn:Ei; cbn [negb].
    + apply Z.eqb_eq in Ei.
      destruct (str_eqb (zone k0) z) eqn:Ez; cbn [negb].
      * apply str_eqb_eq in Ez. exfalso. destruct Hne; congruence.
      * exists ValueError_zone. split; reflexivity.
    + exists ValueError_keyid. split; reflexivity.
  - intros -> ->. rewrite Z.eqb_refl, str_eqb_refl. cbn [negb bind].
    split; [eauto|]. intros Hpost.
    apply read_lines_accepts. intros l' Hl'.
    apply (read_line_accepts k0); [cbn; congruence | cbn; congruence | auto].
Qed.

(** ** Parse errors *)

Lemma date_part_short_token (l tok : str) :
  nth_error (split_ws l) 2 = Some tok ->
  length tok <> 14%nat -> date_part l = Raise ValueError_date_format.
Proof.
  intros Ht Hlen. unfold date_part, index. rewrite Ht. cbn [bind].
  replace (length $"yyyymmddhhmmss") with 14%nat by reflexivity.
  apply Nat.eqb_neq in Hlen. now rewrite Hlen.
Qed.

Lemma date_part_bad_layout (l tok : str) (e : exn) :
  nth_error (split_ws l) 2 = Some tok ->
  length tok = 14%nat -> strptime tok = Raise e ->
  date_part l = Raise ValueError_strptime.
Proof.
  intros Ht Hlen He. unfold date_part, index. rewrite Ht. cbn [bind].
  replace (length $"yyyymmddhhmmss") with 14%nat by reflexivity.
  rewrite Hlen. cbn [Nat.eqb negb]. revert He. unfold strptime.
  repeat match goal with
         | |- context [match ?x with Some _ => _ | None => _ end] => destruct x
         | |- context [if ?b then _ else _] => destruct b
         end; congruence.
Qed.

Lemma read_line_date (k : KeyFile) (l : str) (e : exn) :
  is_date_kind (kind_of l) = true -> date_part l = Raise e ->
  read_line k l = Raise e.
Proof.
  intros Hk Hd. rewrite read_line_kind.
  destruct (kind_of l); try discriminate; rewrite Hd; reflexivity.
Qed.

Lemma int_raises (w : str) (e : exn) : int w = Raise e -> e = ValueError_int.
Proof.
  unfold int.
  destruct (match strip is_int_space w with [] => _ | _ :: _ => _ end).
  destruct (drop_underscores false s); [|congruence].
  destruct (nat_literal s0); congruence.
Qed.

(** C9 (as amended).  Construction fails with a parse error when the stem of
    the file name splits on [+] into fewer than three fields, or when its
    second or third field is not an integer literal.  A stem with three
    fields or more whose second and third fields are integer literals is
    accepted, whatever follows the third field: the name parses to the zone
    of the first field, the algorithm of the second and the key tag of the
    third, and construction goes on to read the lines.  Construction also
    fails with a parse error when, the file name parsed and the lines before
    it read without error, a date-bearing comment line has a third token that
    is not fourteen characters long or that is not a date in the
    YYYYMMDDHHMMSS layout. *)
Theorem parse_failures (f : file) :
  let fields := split_on "+" (stem (f_name f)) in
  ((length fields < 3)%nat ->
     exists e, KeyFile_init f = Raise e /\ classify e = ParseError)
  /\ (forall w1 w2 e,
        nth_error fields 1 = Some w1 -> nth_error fields 2 = Some w2 ->
        int w1 = Raise e \/ int w2 = Raise e ->
        KeyFile_init f = Raise ValueError_int
        /\ classify ValueError_int = ParseError)
  /\ (forall w0 w1 w2 a i,
        nth_error fields 0 = Some w0 -> nth_error fields 1 = Some w1 ->
        nth_error fields 2 = Some w2 -> int w1 = Ok a -> int w2 = Ok i ->
        exists k0,
          parse_name f = Ok k0
          /\ zone k0 = tl w0 /\ algo k0 = a /\ keyid k0 = i
          /\ KeyFile_init f = read_lines k0 (f_lines f))
  /\ (forall k0 k1 pre l post tok,
        parse_name f = Ok k0 -> f_lines f = pre ++ l :: post ->
        read_lines k0 pre = Ok k1 ->
        is_date_kind (kind_of l) = true ->
        nth_error (split_ws l) 2 = Some tok ->
        (length tok <> 14%nat ->
           KeyFile_init f = Raise ValueError_date_format
           /\ classify ValueError_date_format = ParseError)
        /\ (forall e, length tok = 14%nat -> strptime tok = Raise e ->
              KeyFile_init f = Raise ValueError_strptime
              /\ classify ValueError_strptime = ParseError)).
Proof.
  intros fields. split; [|split; [|split]].
  - intros Hlen.
    unfold KeyFile_init, parse_name, index. fold fields.
    destruct fields as [|f0 [|f1 [|f2 rest]]]; simpl in *;
      try (exists IndexError; split; reflexivity).
    + destruct (int f1) as [a|e] eqn:E; simpl.
      * exists IndexError; split; reflexivity.
      * apply int_raises in E; subst e.
        exists ValueError_int; split; reflexivity.
    + lia.
  - intros w1 w2 e H1 H2 He. split; [|reflexivity].
    unfold KeyFile_init, parse_name, index. fold fields.
    rewrite H1, H2.
    destruct fields as [|f0 rest]; [discriminate|]. cbn [nth_error bind].
    destruct (int w1) as [a|e1] eqn:E1.
    + destruct He as [He|He]; [discriminate|].
      rewrite He. apply int_raises in He. now subst e.
    + apply int_raises in E1. now subst e1.
  - intros w0 w1 w2 a i H0 H1 H2 Ha Hi.
    assert (Hn : parse_name f
                 = Ok (mkKeyFile (f_name f)
                         (with_suffix (f_name f) $".private")
                         (stem (f_name f))
                         (f_owner f) (f_group f) (f_mode f)
                         (tl w0) a i $"" None None None None None)).
    { unfold parse_name, index. fold fields. rewrite H0, H1, H2.
      cbn [bind]. rewrite Ha, Hi. reflexivity. }
    eexists. split; [exact Hn|].
    split; [reflexivity|]. split; [reflexivity|]. split; [reflexivity|].
    unfold KeyFile_init. rewrite Hn. reflexivity.
  - intros k0 k1 pre l post tok Hn Hl Hp Hk Ht.
    rewrite (KeyFile_init_prefix _ _ _ _ _ _ Hn Hl Hp). split.
    + intros Hlen. split; [|reflexivity].
      rewrite (read_line_date k1 _ _ Hk (date_part_short_token _ _ Ht Hlen)).
      reflexivity.
    + intros e Hlen He. split; [|reflexivity].
      rewrite (read_line_date k1 _ _ Hk (date_part_bad_layout _ _ _ Ht Hlen He)).
      reflexivity.
Qed.

(** ** Repeated date lines *)

Lemma kind_of_dated (kd : line_kind) (l : str) :
  is_date_kind kd = true -> kind_eqb (kind_of l) kd = dated_by kd l.
Proof.
  intros Hkd. unfold kind_of, dated_by.
  destruct kd; try discriminate; cbn [label_of earlier_labels forallb];
    destruct (startswith l $";"); cbn [negb andb]; try reflexivity;
    destruct (contains $"Created:" l); cbn [negb andb]; try reflexivity;
    destruct (contains $"Publish:" l); cbn [negb andb]; try reflexivity;
    destruct (contains $"Activate:" l); cbn [negb andb]; try reflexivity;
    destruct (contains $"Inactive:" l); cbn [negb andb]; try reflexivity;
    destruct (contains $"Delete:" l); cbn [negb andb]; try reflexivity;
    destruct (contains $"This is a " l && contains $"keyid" l
              && contains $"for" l); reflexivity.
Qed.

Lemma last_such_ext (p q : str -> bool) (ls : list str) :
  (forall l, p l = q l) -> last_such p ls = last_such q ls.
Proof.
  intros H. induction ls as [|l ls IH]; simpl; auto. now rewrite IH, H.
Qed.

Lemma read_line_date_field (k k' : KeyFile) (l : str) (kd : line_kind) :
  is_date_kind kd = true -> read_line k l = Ok k' ->
  if dated_by kd l
  then exists d, date_part l = Ok d /\ date_field kd k' = Some d
  else date_field kd k' = date_field kd k.
Proof.
  intros Hkd. rewrite <- (kind_of_dated kd l Hkd), read_line_kind.
  destruct (kind_of l) eqn:Ek;
    try (destruct (date_part l) as [d|]; cbn [bind]; [|discriminate]);
    try (intros [= <-]; destruct kd; try discriminate; cbn; eauto).
  intros H. apply read_description_cases in H as [-> | ->];
    destruct kd; try discriminate; reflexivity.
Qed.

Lemma read_lines_date_field (ls : list str) (k k' : KeyFile) (kd : line_kind) :
  is_date_kind kd = true -> read_lines k ls = Ok k' ->
  match last_such (dated_by kd) ls with
  | Some l => exists d, date_part l = Ok d /\ date_field kd k' = Some d
  | None => date_field kd k' = date_field kd k
  end.
Proof.
  intros Hkd. revert k; induction ls as [|l ls IH]; simpl; intros k H.
  - now injection H as <-.
  - apply bind_ok in H as (k1 & E & H). specialize (IH _ H).
    destruct (last_such (dated_by kd) ls); auto.
    pose proof (read_line_date_field _ _ _ _ Hkd E) as Hl.
    destruct (dated_by kd l).
    + destruct Hl as (d & Hd & Hf). exists d. split; congruence.
    + congruence.
Qed.

Lemma parse_name_dates (f : file) (k0 : KeyFile) (kd : line_kind) :
  parse_name f = Ok k0 -> date_field kd k0 = None.
Proof.
  unfold parse_name. intros H.
  apply bind_ok in H as (ff0 & _ & H).
  apply bind_ok in H as (a & _ & H).
  apply bind_ok in H as (i & _ & H).
  injection H as <-. now destruct kd.
Qed.

(** C10 (as amended).  In a constructed record each of the five temporal
    fields holds the date parsed from the last comment line that contains
    the label of the field and none of the labels tested before it, and is
    unset when there is no such line; for the creation time this is the last
    comment line on which [Created:] appears.  A repeated label is no error:
    construction succeeds exactly when the file name parses and each line, on
    its own, is accepted. *)
Theorem last_date_line_wins (f : file) :
  (forall k kd,
      KeyFile_init f = Ok k -> is_date_kind kd = true ->
      match last_such (dated_by kd) (f_lines f) with
      | Some l => exists d, date_part l = Ok d /\ date_field kd k = Some d
      | None => date_field kd k = None
      end)
  /\ (forall k,
        KeyFile_init f = Ok k ->
        match last_such (comment_with $"Created:") (f_lines f) with
        | Some l => exists d, date_part l = Ok d /\ d_create k = Some d
        | None => d_create k = None
        end)
  /\ ((exists k, KeyFile_init f = Ok k) <->
      (exists k0, parse_name f = Ok k0
                  /\ forall l, In l (f_lines f) ->
                               exists r, read_line k0 l = Ok r)).
Proof.
  assert (Hdates : forall k kd,
             KeyFile_init f = Ok k -> is_date_kind kd = true ->
             match last_such (dated_by kd) (f_lines f) with
             | Some l => exists d, date_part l = Ok d /\ date_field kd k = Some d
             | None => date_field kd k = None
             end).
  { intros k kd H Hkd. apply bind_ok in H as (k0 & Hn & H).
    pose proof (read_lines_date_field _ _ _ _ Hkd H) as Hl.
    now rewrite (parse_name_dates _ _ kd Hn) in Hl. }
  split; [exact Hdates|]. split.
  - intros k H. specialize (Hdates k Created H eq_refl).
    rewrite (last_such_ext (comment_with $"Created:") (dated_by Created)).
    + exact Hdates.
    + intros l. unfold dated_by, comment_with. cbn [earlier_labels forallb].
      now rewrite andb_true_r.
  - unfold KeyFile_init. split.
    + intros [k H]. apply bind_ok in H as (k0 & Hn & H). exists k0.
      split; auto. apply read_lines_accepts. eauto.
    + intros (k0 & Hn & H). rewrite Hn. cbn [bind].
      now apply read_lines_accepts.
Qed.

(** ** Failure of an external tool *)

(** C8 (what the code does).  When the invoked program exits with a non-zero
    status, [_call] raises an [OSError] whose message is the exit status
    followed by the text [None]: the text written to standard error by the
    program is not part of it. *)
Theorem call_failure_message
    (self : DnsSec) (run : list str -> process) (args : list str) :
  exit_status (run args) <> 0 ->
  snd (_call self run args) =
    Raise (OSError ($"Error executing process: "
                      ++ str_of_int (exit_status (run args))
                      ++ [ch 10] ++ $"None")).
Proof.
  intros Hrc. unfold _call, subprocess_run. cbn [returncode stderr].
  apply Z.eqb_neq in Hrc. rewrite Hrc. reflexivity.
Qed.

(** ** File names *)

Lemma rfind_absent (c : ascii) (s : str) : ~ In c s -> rfind c s = None.
Proof.
  induction s as [|x s IH]; simpl; auto. intros H.
  rewrite IH by tauto. destruct (Ascii.eqb_spec x c); auto. tauto.
Qed.

Lemma rfind_last (c : ascii) (s t : str) :
  ~ In c t -> rfind c (s ++ c :: t) = Some (length s).
Proof.
  intros H. induction s as [|x s IH]; simpl.
  - rewrite rfind_absent by exact H. now rewrite Ascii.eqb_refl.
  - now rewrite IH.
Qed.

Lemma stem_key (s : str) : s <> [] -> stem (s ++ $".key") = s.
Proof.
  intros Hs. unfold stem, suffix.
  change $".key" with ["."%char; "k"%char; "e"%char; "y"%char].
  rewrite rfind_last
    by (cbn; intros [H|[H|[H|[]]]]; discriminate).
  rewrite length_app. cbn [length].
  assert (E : ((0 <? length s) && (length s <? length s + 4 - 1))%nat = true).
  { apply andb_true_iff. split; apply Nat.ltb_lt; [|lia].
    destruct s; [congruence | cbn; lia]. }
  rewrite E, skipn_app, skipn_all, Nat.sub_diag. cbn [skipn app length].
  replace (length s + 4 - 4)%nat with (length s) by lia.
  rewrite firstn_app, firstn_all, Nat.sub_diag. cbn [firstn].
  apply app_nil_r.
Qed.

Lemma split_on_single (sep : ascii) (x : str) :
  ~ In sep x -> split_on sep x = [x].
Proof.
  induction x as [|c x IH]; simpl; auto. intros H.
  destruct (Ascii.eqb_spec c sep); [tauto|]. rewrite IH; tauto.
Qed.

Lemma split_on_app (sep : ascii) (x y : str) :
  ~ In sep x -> split_on sep (x ++ sep :: y) = x :: split_on sep y.
Proof.
  induction x as [|c x IH]; simpl; intros H.
  - now rewrite Ascii.eqb_refl.
  - destruct (Ascii.eqb_spec c sep); [tauto|]. rewrite IH; tauto.
Qed.

Lemma digits_without (d : ascii) (s : str) :
  is_digit d = false -> all_digits s = true -> ~ In d s.
Proof.
  intros Hd. unfold all_digits. rewrite forallb_forall. intros H Hin.
  apply H in Hin. congruence.
Qed.

(** *** Decimal numerals *)

Lemma digits_of_digit_of_char (c : ascii) (u : Decimal.uint) :
  is_digit c = true ->
  digits_of_uint (digit_of_char c u) = c :: digits_of_uint u.
Proof.
  destruct c as [[] [] [] [] [] [] [] []]; cbv [is_digit]; cbn;
    try discriminate; reflexivity.
Qed.

Lemma uint_of_digits_all (s : str) :
  all_digits s = true ->
  exists u, uint_of_digits s = Some u /\ digits_of_uint u = s
            /\ Decimal.nb_digits u = length s.
Proof.
  induction s as [|c s IH]; cbn [all_digits forallb uint_of_digits].
  - exists Decimal.Nil. auto.
  - rewrite andb_true_iff. intros [Hc Hs].
    destruct (IH Hs) as (u & -> & Hu & Hn). rewrite Hc. cbn [option_map].
    exists (digit_of_char c u). split; auto. split.
    + now rewrite digits_of_digit_of_char, Hu.
    + cbn [length]. rewrite <- Hn. clear - Hc.
      destruct c as [[] [] [] [] [] [] [] []]; cbv [is_digit] in Hc; cbn in Hc;
        try discriminate; reflexivity.
Qed.

Lemma digits_of_uint_length (u : Decimal.uint) :
  length (digits_of_uint u) = Decimal.nb_digits u.
Proof. induction u; cbn; auto. Qed.

Lemma digits_of_uint_pad (n : nat) (u : Decimal.uint) :
  digits_of_uint (Nat.iter n Decimal.D0 u)
  = repeat "0"%char n ++ digits_of_uint u.
Proof. induction n as [|n IH]; cbn; auto. now rewrite <- IH. Qed.

Lemma lstrip_digits (s : str) :
  all_digits s = true -> lstrip is_int_space s = s.
Proof.
  destruct s as [|c s]; cbn [all_digits forallb lstrip]; auto.
  rewrite andb_true_iff. intros [Hc _].
  replace (is_int_space c) with false; auto.
  destruct c as [[] [] [] [] [] [] [] []]; cbv [is_digit] in Hc; cbn in Hc;
    try discriminate; reflexivity.
Qed.

Lemma strip_digits (s : str) :
  all_digits s = true -> strip is_int_space s = s.
Proof.
  intros H. unfold strip, rstrip. rewrite (lstrip_digits s H), lstrip_digits.
  - apply rev_involutive.
  - unfold all_digits in *. rewrite forallb_forall in *.
    intros c Hc. apply H. now apply in_rev.
Qed.

Lemma drop_underscores_digits (s : str) (b : bool) :
  all_digits s = true -> s <> [] -> drop_underscores b s = Some s.
Proof.
  revert b; induction s as [|c s IH]; [congruence|].
  cbn [all_digits forallb drop_underscores]. intros b.
  rewrite andb_true_iff. intros [Hc Hs] _. rewrite Hc.
  destruct s as [|c' s]; [reflexivity|]. rewrite IH; auto. discriminate.
Qed.

(** [int] reads a string of digits as the number it writes, and formatting
    that number at the width of the string gives the string back. *)
Lemma int_digits (s : str) :
  all_digits s = true -> s <> [] ->
  exists n, int s = Ok n /\ 0 <= n /\ format_0d (length s) n = s.
Proof.
  intros Hd Hne. unfold int. rewrite strip_digits by exact Hd.
  destruct (uint_of_digits_all s Hd) as (u & Hu & Hs & Hn).
  assert (Hsign : (let '(neg, ds) :=
             match s with
             | [] => (false, s)
             | c :: rest =>
                 if Ascii.eqb c "-" then (true, rest)
                 else if Ascii.eqb c "+" then (false, rest) else (false, s)
             end in
           match drop_underscores false ds with
           | Some ds' =>
               match nat_literal ds' with
               | Some n => Ok (if neg then - n else n)
               | None => Raise ValueError_int
               end
           | None => Raise ValueError_int
           end) = Ok (Z.of_N (N.of_uint u))).
  { destruct s as [|c s']; [congruence|].
    assert (Hc : is_digit c = true)
      by (cbn [all_digits forallb] in Hd; now apply andb_true_iff in Hd).
    replace (Ascii.eqb c "-") with false
      by (destruct c as [[] [] [] [] [] [] [] []]; cbv [is_digit] in Hc;
          cbn in Hc; try discriminate; reflexivity).
    replace (Ascii.eqb c "+") with false
      by (destruct c as [[] [] [] [] [] [] [] []]; cbv [is_digit] in Hc;
          cbn in Hc; try discriminate; reflexivity).
    rewrite (drop_underscores_digits _ false Hd Hne).
    unfold nat_literal. now rewrite Hu. }
  rewrite Hsign. exists (Z.of_N (N.of_uint u)). split; auto. split; [lia|].
  unfold format_0d, abs_digits.
  replace (Z.of_N (N.of_uint u) <? 0) with false by (symmetry; apply Z.ltb_ge; lia).
  rewrite Zabs2N.id, DecimalN.Unsigned.to_of. cbn [app length].
  rewrite Nat.sub_0_r, digits_of_uint_length, <- Hn, <- digits_of_uint_pad.
  rewrite DecimalFacts.iter_D0_unorm; auto.
  intros ->. cbn in Hs. congruence.
Qed.

(** C4.  A file name [K<zone>+<algorithm>+<keyid>.key] whose zone has no
    [+], whose algorithm is three digits and whose key tag is five digits
    parses, and its three parsed fields, written again in the format of the
    naming convention, give the file name back.  [__str__] writes the same
    three fields: it gives the stem of the file name after its marker. *)
Theorem file_name_round_trip (f : file) (z a i : str) :
  f_name f = $"K" ++ z ++ $"+" ++ a ++ $"+" ++ i ++ $".key" ->
  ~ In "+"%char z ->
  all_digits a = true -> length a = 3%nat ->
  all_digits i = true -> length i = 5%nat ->
  (exists k0, parse_name f = Ok k0)
  /\ (forall k,
        parse_name f = Ok k \/ KeyFile_init f = Ok k ->
        zone k = z
        /\ key_file_name (zone k) (algo k) (keyid k) = f_name f
        /\ $"K" ++ __str__ k ++ $".key" = f_name f).
Proof.
  intros Hname Hz Ha Hla Hi Hli.
  assert (Hstem : stem (f_name f) = ("K"%char :: z) ++ "+"%char :: a ++ "+"%char :: i).
  { rewrite Hname.
    replace ($"K" ++ z ++ $"+" ++ a ++ $"+" ++ i ++ $".key")
      with ((("K"%char :: z) ++ "+"%char :: a ++ "+"%char :: i) ++ $".key")
      by (cbn; rewrite <- !app_assoc; cbn; now rewrite <- !app_assoc).
    apply stem_key. discriminate. }
  assert (Hfields : split_on "+" (stem (f_name f)) = [("K"%char :: z); a; i]).
  { rewrite Hstem, split_on_app, split_on_app, split_on_single; auto.
    - apply (digits_without "+"%char); [reflexivity | assumption].
    - apply (digits_without "+"%char); [reflexivity | assumption].
    - intros [H|H]; [discriminate | tauto]. }
  destruct (int_digits a Ha) as (na & Eia & Hna & Hfa).
  { intros ->. discriminate. }
  destruct (int_digits i Hi) as (ni & Eii & Hni & Hfi).
  { intros ->. discriminate. }
  rewrite Hla in Hfa. rewrite Hli in Hfi.
  assert (Hparse : exists k0, parse_name f = Ok k0 /\ zone k0 = z
                              /\ algo k0 = na /\ keyid k0 = ni).
  { unfold parse_name, index. rewrite Hfields. cbn [nth_error bind].
    rewrite Eia, Eii. cbn [bind]. eexists. split; [reflexivity|]. auto. }
  destruct Hparse as (k0 & Hk0 & Hz0 & Ha0 & Hi0).
  split; [eauto|].
  assert (Hall : forall k, zone k = z -> algo k = na -> keyid k = ni ->
            zone k = z /\ key_file_name (zone k) (algo k) (keyid k) = f_name f
            /\ $"K" ++ __str__ k ++ $".key" = f_name f).
  { intros k Hkz Hka Hki. unfold key_file_name, __str__.
    rewrite Hkz, Hka, Hki, Hfa, Hfi, Hname. rewrite <- !app_assoc.
    repeat split. }
  intros k [Hk|Hk].
  - assert (k = k0) by congruence. subst k. auto.
  - unfold KeyFile_init in Hk. rewrite Hk0 in Hk. cbn [bind] in Hk.
    apply read_lines_identity in Hk.
    apply Hall; [rewrite <- Hz0 | rewrite <- Ha0 | rewrite <- Hi0];
      symmetry; apply Hk.
Qed.

(** ** Patterns *)

Lemma tokens_match_star_unfold (p : list glob_token) (s : str) :
  tokens_match (Star :: p) s =
    tokens_match p s
    || match s with
       | [] => false
       | _ :: s' => tokens_match (Star :: p) s'
       end.
Proof. destruct s; reflexivity. Qed.

Lemma tokens_match_star (p : list glob_token) (s : str) :
  tokens_match (Star :: p) s = true <->
  exists a t, s = a ++ t /\ tokens_match p t = true.
Proof.
  induction s as [|x s IH]; rewrite tokens_match_star_unfold, orb_true_iff.
  - split.
    + intros [H|H]; [|discriminate]. now exists [], [].
    + intros (a & t & E & H). symmetry in E.
      apply app_eq_nil in E as [-> ->]. auto.
  - rewrite IH. split.
    + intros [H|(a & t & -> & H)].
      * now exists [], (x :: s).
      * now exists (x :: a), t.
    + intros ([|y a] & t & E & H).
      * left. now rewrite E.
      * right. injection E as -> ->. eauto.
Qed.

Lemma tokens_match_lit (c : ascii) (p : list glob_token) (s : str) :
  tokens_match (Lit c :: p) s = true <->
  exists t, s = c :: t /\ tokens_match p t = true.
Proof.
  destruct s as [|x s]; cbn [tokens_match].
  - split; [discriminate | now intros (t & ? & _)].
  - rewrite andb_true_iff, Ascii.eqb_eq. split.
    + intros [-> H]. eauto.
    + intros (t & [= -> ->] & H). auto.
Qed.

Lemma tokens_match_plain (w : str) (p : list glob_token) (s : str) :
  plain w = true ->
  (tokens_match (glob_tokens w ++ p) s = true <->
   exists t, s = w ++ t /\ tokens_match p t = true).
Proof.
  revert s; induction w as [|c w IH]; intros s; cbn [plain forallb].
  - intros _. cbn. split; [eauto | now intros (t & -> & H)].
  - rewrite andb_true_iff. intros [Hc Hw].
    cbn [glob_tokens map app]. fold (glob_tokens w).
    assert (Htok : glob_token_of c = Lit c).
    { unfold glob_token_of. apply negb_true_iff in Hc.
      apply orb_false_iff in Hc as [Hc _]. apply orb_false_iff in Hc as [Hc _].
      apply orb_false_iff in Hc as [-> ->]. reflexivity. }
    rewrite Htok, tokens_match_lit. split.
    + intros (t & -> & H). apply IH in H as (t' & -> & H); eauto.
    + intros (t & -> & H). exists (w ++ t). split; auto. apply IH; eauto.
Qed.

Lemma tokens_match_nil (s : str) : tokens_match [] s = true <-> s = [].
Proof. destruct s; cbn; split; congruence. Qed.

Lemma key_pattern_tokens (zz : str) :
  glob_tokens (key_pattern zz) = Lit "K" :: glob_tokens zz ++ key_tail.
Proof.
  unfold key_pattern, glob_tokens. now rewrite !map_app.
Qed.

Lemma key_tail_match (s : str) :
  tokens_match key_tail s = true <->
  exists a b, s = $"+" ++ a ++ $"+" ++ b ++ $".key".
Proof.
  unfold key_tail. rewrite tokens_match_lit. split.
  - intros (t & -> & H). apply tokens_match_star in H as (a & t1 & -> & H).
    apply tokens_match_lit in H as (t2 & -> & H).
    apply tokens_match_star in H as (b & t3 & -> & H).
    rewrite <- (app_nil_r (glob_tokens $".key")) in H.
    apply tokens_match_plain in H as (t4 & -> & H); [|reflexivity].
    apply tokens_match_nil in H as ->. exists a, b.
    now rewrite app_nil_r.
  - intros (a & b & ->). eexists. split; [reflexivity|].
    apply tokens_match_star. exists a. eexists. split; [reflexivity|].
    apply tokens_match_lit. eexists. split; [reflexivity|].
    apply tokens_match_star. exists b. eexists. split; [reflexivity|].
    rewrite <- (app_nil_r (glob_tokens $".key")).
    apply tokens_match_plain; [reflexivity|]. exists []. split.
    + now rewrite app_nil_r.
    + reflexivity.
Qed.

(** The names that the pattern of a plain zone matches. *)
Lemma key_pattern_plain (z name_ : str) :
  plain z = true ->
  (glob_match (key_pattern z) name_ = true <->
   exists a b, name_ = $"K" ++ z ++ $"+" ++ a ++ $"+" ++ b ++ $".key").
Proof.
  intros Hz. unfold glob_match. rewrite key_pattern_tokens, tokens_match_lit.
  split.
  - intros (t & -> & H). apply tokens_match_plain in H as (t' & -> & H); auto.
    apply key_tail_match in H as (a & b & ->). now exists a, b.
  - intros (a & b & ->). eexists. split; [reflexivity|].
    apply tokens_match_plain; auto. eexists. split; [reflexivity|].
    apply key_tail_match. eauto.
Qed.

Lemma plain_lstrip (p : ascii -> bool) (z : str) :
  plain z = true -> plain (lstrip p z) = true.
Proof.
  induction z as [|c z IH]; cbn [lstrip]; auto.
  destruct (p c); auto. cbn [plain forallb]. rewrite andb_true_iff.
  intros [_ H]. auto.
Qed.

Lemma plain_app (a b : str) :
  plain (a ++ b) = true <-> plain a = true /\ plain b = true.
Proof. unfold plain. rewrite forallb_app. apply andb_true_iff. Qed.

(** C6 (as amended).  With [recursive] the pattern is that of the zone
    [*.] followed by the zone without its leading dots.  It matches the key
    files of the subdomains of the zone: exactly the names
    [K<prefix>.<zone>+<a>+<b>.key], so every name matched by the
    non-recursive pattern of a subdomain [<sub>.<zone>] is matched. *)
Theorem recursive_pattern (z : str) :
  plain z = true ->
  let z' := lstrip (Ascii.eqb ".") z in
  (forall name_,
      glob_match (key_pattern (listed_zone z true)) name_ = true <->
      exists pre a b,
        name_ = $"K" ++ pre ++ $"." ++ z' ++ $"+" ++ a ++ $"+" ++ b ++ $".key")
  /\ (forall sub name_,
        plain sub = true ->
        glob_match (key_pattern (sub ++ $"." ++ z')) name_ = true ->
        glob_match (key_pattern (listed_zone z true)) name_ = true).
Proof.
  intros Hz z'.
  assert (Hz' : plain ($"." ++ z') = true).
  { apply plain_app. split; [reflexivity | now apply plain_lstrip]. }
  assert (Hrec : forall name_,
      glob_match (key_pattern (listed_zone z true)) name_ = true <->
      exists pre a b,
        name_ = $"K" ++ pre ++ $"." ++ z' ++ $"+" ++ a ++ $"+" ++ b ++ $".key").
  { intros name_. unfold glob_match, listed_zone. fold z'.
    rewrite key_pattern_tokens.
    change (glob_tokens ($"*." ++ z')) with (Star :: glob_tokens ($"." ++ z')).
    rewrite tokens_match_lit. split.
    - intros (t & -> & H). cbn [app] in H.
      apply tokens_match_star in H as (pre & t1 & -> & H).
      apply tokens_match_plain in H as (t2 & -> & H); auto.
      apply key_tail_match in H as (a & b & ->).
      exists pre, a, b. now rewrite <- !app_assoc.
    - intros (pre & a & b & ->). eexists. split; [reflexivity|]. cbn [app].
      apply tokens_match_star. exists pre. eexists. split; [reflexivity|].
      apply tokens_match_plain; auto. eexists.
      split; [now rewrite <- app_assoc|].
      apply key_tail_match. eauto. }
  split; [exact Hrec|].
  intros sub name_ Hsub H. apply Hrec.
  apply key_pattern_plain in H as (a & b & ->).
  - exists sub, a, b. now rewrite <- !app_assoc.
  - apply plain_app. auto.
Qed.

(** For a zone without pattern characters the pattern of [list_keys]
    matches the names of the stated shape and no others. *)
Lemma key_pattern_listed (z : str) (recursive : bool) (name_ : str) :
  plain z = true ->
  (glob_match (key_pattern (listed_zone z recursive)) name_ = true
   <-> key_name_for z recursive name_).
Proof.
  intros Hz. destruct recursive; cbn [listed_zone key_name_for].
  - set (z' := lstrip (Ascii.eqb ".") z).
    assert (Hz' : plain ($"." ++ z') = true).
    { apply plain_app. split; [reflexivity | now apply plain_lstrip]. }
    unfold glob_match. rewrite key_pattern_tokens.
    change (glob_tokens ($"*." ++ z')) with (Star :: glob_tokens ($"." ++ z')).
    rewrite tokens_match_lit. split.
    + intros (t & -> & H). cbn [app] in H.
      apply tokens_match_star in H as (pre & t1 & -> & H).
      apply tokens_match_plain in H as (t2 & -> & H); auto.
      apply key_tail_match in H as (a & b & ->).
      exists pre, a, b. now rewrite <- !app_assoc.
    + intros (pre & a & b & ->). eexists. split; [reflexivity|]. cbn [app].
      apply tokens_match_star. exists pre. eexists. split; [reflexivity|].
      apply tokens_match_plain; auto. eexists.
      split; [now rewrite <- app_assoc|].
      apply key_tail_match. eauto.
  - now apply key_pattern_plain.
Qed.

(** ** The order on strings *)

Lemma char_cmp_eq (x y : ascii) : char_cmp x y = Eq <-> x = y.
Proof.
  unfold char_cmp. rewrite Nat.compare_eq_iff. split; [|congruence].
  intros H. rewrite <- (ascii_nat_embedding x), <- (ascii_nat_embedding y).
  now rewrite H.
Qed.

Lemma char_cmp_opp (x y : ascii) : char_cmp y x = CompOpp (char_cmp x y).
Proof. apply Nat.compare_antisym. Qed.

Lemma char_cmp_lt_trans (x y z : ascii) :
  char_cmp x y = Lt -> char_cmp y z = Lt -> char_cmp x z = Lt.
Proof. unfold char_cmp. rewrite !Nat.compare_lt_iff. lia. Qed.

Lemma str_cmp_eq (a b : str) : str_cmp a b = Eq <-> a = b.
Proof. apply (lex_cmp_eq char_cmp char_cmp_eq). Qed.

Lemma str_cmp_opp (a b : str) : str_cmp b a = CompOpp (str_cmp a b).
Proof. apply (lex_cmp_opp char_cmp char_cmp_opp). Qed.

Lemma str_cmp_lt_trans (a b c : str) :
  str_cmp a b = Lt -> str_cmp b c = Lt -> str_cmp a c = Lt.
Proof. apply (lex_cmp_lt_trans char_cmp char_cmp_eq char_cmp_lt_trans). Qed.

(** *** Sort keys and tuples *)

Lemma str_cmp_refl (a : str) : str_cmp a a = Eq.
Proof. now apply str_cmp_eq. Qed.

Lemma char_cmp_refl (c : ascii) : char_cmp c c = Eq.
Proof. now apply char_cmp_eq. Qed.

(** Two fields that end at a separator smaller than all their characters
    compare first, the rest after. *)
Lemma str_cmp_separated (sep : ascii) (x y r1 r2 : str) :
  Forall (fun c => char_cmp sep c = Lt) x ->
  Forall (fun c => char_cmp sep c = Lt) y ->
  str_cmp (x ++ sep :: r1) (y ++ sep :: r2)
  = match str_cmp x y with
    | Eq => str_cmp r1 r2
    | c => c
    end.
Proof.
  unfold str_cmp. revert y.
  induction x as [|c x IH]; intros [|c' y] Hx Hy; cbn [app lex_cmp].
  - now rewrite char_cmp_refl.
  - inversion Hy; subst. now replace (char_cmp sep c') with Lt.
  - inversion Hx; subst. rewrite (char_cmp_opp sep c).
    now replace (char_cmp sep c) with Lt.
  - inversion Hx; inversion Hy; subst.
    destruct (char_cmp c c'); auto.
Qed.

(** Two fields of the same width compare first, the rest after. *)
Lemma str_cmp_same_width (x y r1 r2 : str) :
  length x = length y ->
  str_cmp (x ++ r1) (y ++ r2)
  = match str_cmp x y with
    | Eq => str_cmp r1 r2
    | c => c
    end.
Proof.
  unfold str_cmp. revert y.
  induction x as [|c x IH]; intros [|c' y]; cbn [app lex_cmp length];
    try discriminate; auto.
  intros [= H]. destruct (char_cmp c c'); auto.
Qed.

Lemma increasing_from_sound (w fuel : nat) (n : Z) :
  increasing_from w fuel n = true ->
  forall k, 0 <= k <= Z.of_nat fuel ->
    length (format_d w (n + k)) = w
    /\ (k < Z.of_nat fuel ->
        str_cmp (format_d w (n + k)) (format_d w (n + k + 1)) = Lt).
Proof.
  revert n; induction fuel as [|fuel IH]; intros n; cbn [increasing_from].
  - intros H k Hk. assert (k = 0) as -> by lia. rewrite Z.add_0_r.
    split; [now apply Nat.eqb_eq | lia].
  - destruct (str_ltb (format_d w n) (format_d w (n + 1))) eqn:Elt;
      [|discriminate].
    destruct (length (format_d w n) =? w)%nat eqn:Elen; [|discriminate].
    cbn [andb]. intros H k Hk. destruct (Z.eq_dec k 0) as [->|Hk0].
    + rewrite Z.add_0_r. split; [now apply Nat.eqb_eq|]. intros _.
      unfold str_ltb in Elt. now destruct (str_cmp _ _).
    + destruct (IH _ H (k - 1)) as [H1 H2]; [lia|].
      replace (n + 1 + (k - 1)) with (n + k) in * by lia.
      split; auto. intros Hlt. apply H2. lia.
Qed.

Lemma increasing_from_lt (w fuel : nat) (a b : Z) :
  increasing_from w fuel 0 = true ->
  0 <= a -> a < b -> b <= Z.of_nat fuel ->
  str_cmp (format_d w a) (format_d w b) = Lt.
Proof.
  intros H Ha Hab Hb.
  pose proof (increasing_from_sound _ _ _ H) as Hs. cbn [Z.add] in Hs.
  assert (forall d : nat, a + 1 + Z.of_nat d <= Z.of_nat fuel ->
            str_cmp (format_d w a) (format_d w (a + 1 + Z.of_nat d)) = Lt)
    as Hchain.
  { induction d as [|d IHd]; intros Hd.
    - rewrite Z.add_0_r. apply Hs; lia.
    - apply str_cmp_lt_trans with (format_d w (a + 1 + Z.of_nat d)).
      + apply IHd. lia.
      + replace (a + 1 + Z.of_nat (S d)) with (a + 1 + Z.of_nat d + 1) by lia.
        apply Hs; lia. }
  replace b with (a + 1 + Z.of_nat (Z.to_nat (b - a - 1))) by lia.
  apply Hchain. lia.
Qed.

Lemma increasing_from_cmp (w fuel : nat) (a b : Z) :
  increasing_from w fuel 0 = true ->
  0 <= a <= Z.of_nat fuel -> 0 <= b <= Z.of_nat fuel ->
  length (format_d w a) = length (format_d w b)
  /\ str_cmp (format_d w a) (format_d w b) = (a ?= b).
Proof.
  intros H Ha Hb.
  pose proof (increasing_from_sound _ _ _ H) as Hs. cbn [Z.add] in Hs.
  split.
  - destruct (Hs a Ha) as [-> _]. destruct (Hs b Hb) as [-> _]. reflexivity.
  - destruct (Z.compare_spec a b) as [->|Hlt|Hgt].
    + apply str_cmp_refl.
    + apply (increasing_from_lt w fuel); auto; lia.
    + rewrite str_cmp_opp.
      rewrite (increasing_from_lt w fuel); auto; lia.
Qed.

Lemma three_columns : increasing_from 3 (Z.to_nat 999) 0 = true.
Proof. vm_compute. reflexivity. Qed.

Lemma five_columns : increasing_from 5 (Z.to_nat 99999) 0 = true.
Proof. vm_compute. reflexivity. Qed.

Lemma conventional_zone (k : KeyFile) :
  conventional k = true -> Forall (fun c => char_cmp "+" c = Lt) (zone k).
Proof.
  unfold conventional. rewrite !andb_true_iff, forallb_forall, Forall_forall.
  intros [[[[H _] _] _] _] c Hc. apply H in Hc.
  unfold char_cmp. apply Nat.compare_lt_iff. now apply Nat.ltb_lt.
Qed.

Lemma conventional_bounds (k : KeyFile) :
  conventional k = true ->
  0 <= algo k <= 999 /\ 0 <= keyid k <= 99999.
Proof.
  unfold conventional. rewrite !andb_true_iff. lia.
Qed.

Lemma type_above_separator (t : str) :
  In t [$"ZSK"; $"KSK"; $""] -> Forall (fun c => char_cmp "+" c = Lt) t.
Proof.
  intros [<-|[<-|[<-|[]]]]; repeat constructor.
Qed.

(** On conventional records the order of the sort keys is the order of the
    tuples (zone, type, algo, keyid). *)
Lemma sort_key_cmp (a b : KeyFile) :
  conventional a = true -> conventional b = true ->
  In (type a) [$"ZSK"; $"KSK"; $""] -> In (type b) [$"ZSK"; $"KSK"; $""] ->
  str_cmp (sort_key a) (sort_key b) = key_tuple_cmp a b.
Proof.
  intros Ca Cb Ta Tb. unfold sort_key, key_tuple_cmp.
  change $"+" with ["+"%char]. cbn [app].
  rewrite str_cmp_separated by now apply conventional_zone.
  destruct (str_cmp (zone a) (zone b)); auto.
  rewrite str_cmp_separated by now apply type_above_separator.
  destruct (str_cmp (type a) (type b)); auto.
  destruct (conventional_bounds _ Ca) as [Ha Hka].
  destruct (conventional_bounds _ Cb) as [Hb Hkb].
  destruct (increasing_from_cmp 3 (Z.to_nat 999) (algo a) (algo b)
              three_columns) as [Hlen Hcmp]; [lia | lia |].
  rewrite (str_cmp_same_width _ _ _ _ Hlen), Hcmp.
  destruct (algo a ?= algo b); auto.
  unfold str_cmp. cbn [lex_cmp]. rewrite char_cmp_refl. fold str_cmp.
  apply (increasing_from_cmp 5 (Z.to_nat 99999)); [apply five_columns | lia | lia].
Qed.

(** ** list_keys *)

Lemma collect_result (self : DnsSec) (fs : list file) (acc : list KeyFile) :
  snd (collect (map (fun f =>
                       if negb (has_private self f) then Warn (f_name f)
                       else Yield f) fs) acc)
  = (ks <- init_all (filter (has_private self) fs) ;; Ok (acc ++ ks)).
Proof.
  revert acc; induction fs as [|f fs IH]; intros acc; cbn [map filter collect].
  - cbn. now rewrite app_nil_r.
  - destruct (has_private self f); cbn [negb collect init_all].
    + destruct (KeyFile_init f) as [k|e]; cbn [bind snd]; auto.
      rewrite IH. destruct (init_all _); cbn [bind]; auto.
      now rewrite <- app_assoc.
    + specialize (IH acc). destruct (collect _ acc). exact IH.
Qed.

Lemma collect_log (self : DnsSec) (fs : list file) (acc ks : list KeyFile) :
  init_all (filter (has_private self) fs) = Ok ks ->
  fst (collect (map (fun f =>
                       if negb (has_private self f) then Warn (f_name f)
                       else Yield f) fs) acc)
  = map (fun f => Warning (f_name f))
        (filter (fun f => negb (has_private self f)) fs).
Proof.
  revert acc ks; induction fs as [|f fs IH]; intros acc ks;
    cbn [map filter collect]; auto.
  destruct (has_private self f); cbn [negb collect init_all map].
  - intros H. apply bind_ok in H as (k & -> & H).
    apply bind_ok in H as (ks' & H & _). eauto.
  - intros H. specialize (IH acc ks H). destruct (collect _ acc).
    cbn [fst] in *. now rewrite IH.
Qed.

Lemma init_all_In (fs : list file) (ks : list KeyFile) :
  init_all fs = Ok ks ->
  forall k, In k ks -> exists f, In f fs /\ KeyFile_init f = Ok k.
Proof.
  revert ks; induction fs as [|f fs IH]; intros ks; cbn [init_all].
  - intros [= <-] k [].
  - intros H. apply bind_ok in H as (k0 & Hk0 & H).
    apply bind_ok in H as (ks' & Hks' & H). injection H as <-.
    intros k [<-|Hk].
    + exists f. split; [now left | assumption].
    + destruct (IH _ Hks' _ Hk) as (f' & Hf' & Hk'). exists f'.
      split; [now right | assumption].
Qed.

Lemma Sorted_Forall_impl {A} (P : A -> Prop) (R R' : A -> A -> Prop)
      (l : list A) :
  (forall a b, P a -> P b -> R a b -> R' a b) ->
  Forall P l -> Sorted R l -> Sorted R' l.
Proof.
  intros Himp HP Hs. induction Hs as [|x l Hs IH Hhd]; constructor.
  - apply IH. now inversion HP.
  - inversion HP as [|? ? Px Pl]; subst.
    destruct Hhd as [|y l' Hxy]; constructor.
    inversion Pl; subst. auto.
Qed.

Lemma list_keys_unfold (self : DnsSec) (z : str) (recursive : bool) :
  list_keys self z recursive =
    (fst (collect (_iter_keyfiles self (listed_zone z recursive)) []),
     keys <- snd (collect (_iter_keyfiles self (listed_zone z recursive)) []) ;;
     Ok (sorted_by sort_key str_ltb keys)).
Proof. unfold list_keys. now destruct (collect _ []). Qed.

(** C5 (as amended).  For a zone without pattern characters, [list_keys]
    looks at the files that match the pattern: the files of the directory
    named [K<zone>+<a>+<b>.key], and with [recursive] those named
    [K<prefix>.<zone>+<a>+<b>.key].
    A file without its [.private] companion is skipped with a warning and is
    no error.  When the records of the remaining files can all be
    constructed, exactly these records are returned, sorted ascending by
    their sort key, the string [<zone>+<type>+<algorithm>+<keyid>] with the
    algorithm right-aligned in three and the key tag in five columns.  This
    is the ascending order of the tuples (zone, type, algorithm, keyid) when
    the records are conventional: zones of characters above [+], an
    algorithm below 1000 and a key tag below 100000.  When one of the records
    cannot be constructed, its exception is the result. *)
Theorem list_keys_spec (self : DnsSec) (z : str) (recursive : bool) :
  plain z = true ->
  let matched := glob self (key_pattern (listed_zone z recursive)) in
  let paired := filter (has_private self) matched in
  let unpaired := filter (fun f => negb (has_private self f)) matched in
  (forall f, In f matched <->
             In f (path self) /\ key_name_for z recursive (f_name f))
  /\ (forall ks,
      init_all paired = Ok ks ->
      exists keys,
        list_keys self z recursive
          = (map (fun f => Warning (f_name f)) unpaired, Ok keys)
        /\ Permutation ks keys
        /\ Sorted (fun a b => str_cmp (sort_key a) (sort_key b) <> Gt) keys
        /\ (Forall (fun k => conventional k = true) ks ->
            Sorted (fun a b => key_tuple_cmp a b <> Gt) keys))
  /\ (forall e,
        init_all paired = Raise e ->
        snd (list_keys self z recursive) = Raise e).
Proof.
  intros Hz matched paired unpaired. split.
  { intros f. unfold matched, glob. rewrite filter_In.
    now rewrite (key_pattern_listed z recursive (f_name f) Hz). }
  rewrite list_keys_unfold.
  unfold _iter_keyfiles. fold matched. split.
  - intros ks Hks. exists (sorted_by sort_key str_ltb ks).
    change (fun f => if negb (exists_ self (with_suffix (f_name f) $".private"))
                     then Warn (f_name f) else Yield f)
      with (fun f => if negb (has_private self f) then Warn (f_name f)
                     else Yield f).
    rewrite collect_result, (collect_log self matched [] ks Hks).
    fold paired. rewrite Hks. cbn [bind app].
    pose proof (sorted_by_Permutation sort_key str_cmp ks) as Hperm.
    pose proof (sorted_by_Sorted sort_key str_cmp str_cmp_opp ks) as Hsorted.
    split; [reflexivity|]. split; [exact Hperm|]. split; [exact Hsorted|].
    intros Hconv.
    apply (Sorted_Forall_impl
             (fun k => conventional k = true
                       /\ In (type k) [$"ZSK"; $"KSK"; $""])
             (fun a b => str_cmp (sort_key a) (sort_key b) <> Gt)).
    + intros a b [Ca Ta] [Cb Tb]. now rewrite sort_key_cmp.
    + apply Forall_forall. intros k Hk.
      apply (Permutation_in _ (Permutation_sym Hperm)) in Hk.
      split.
      * rewrite Forall_forall in Hconv. auto.
      * destruct (init_all_In _ _ Hks _ Hk) as (f & _ & Hf).
        now apply KeyFile_init_type in Hf.
    + exact Hsorted.
  - intros e He. cbn [snd].
    change (fun f => if negb (exists_ self (with_suffix (f_name f) $".private"))
                     then Warn (f_name f) else Yield f)
      with (fun f => if negb (has_private self f) then Warn (f_name f)
                     else Yield f).
    rewrite collect_result. fold paired. now rewrite He.
Qed.

(** ** The theorems at sample inputs *)

Lemma state_priority_chain_witness :
  at_or_before (d_delete key_2024) (midnight 2024 8 1)
  /\ state key_2024 (midnight 2024 8 1) = $"DEL".
Proof.
  split.
  - eexists. split; reflexivity.
  - apply (proj1 (proj2 (proj1 state_priority_chain key_2024
                           (midnight 2024 8 1)))).
    eexists. split; reflexivity.
Defined.

Lemma next_change_spec_witness :
  Sorted dt_le (assigned key_2024)
  /\ ((exists d, next_change key_2024 (midnight 2024 3 1) = ChangeAt d
                 /\ In d (assigned key_2024) /\ dt_lt (midnight 2024 3 1) d
                 /\ forall d', In d' (assigned key_2024) ->
                               dt_lt (midnight 2024 3 1) d' -> dt_le d d')
      \/ (next_change key_2024 (midnight 2024 3 1) = NoChange
          /\ forall d, In d (assigned key_2024) ->
                       ~ dt_lt (midnight 2024 3 1) d)).
Proof.
  assert (Hs : Sorted dt_le (assigned key_2024))
    by (repeat constructor).
  split; [exact Hs|].
  exact (proj1 (proj2 (next_change_spec key_2024 (midnight 2024 3 1))) Hs).
Defined.

Lemma identity_cross_check_witness :
  (exists e, KeyFile_init wrong_tag_key = Raise e
             /\ classify e = IdentityMismatchError)
  /\ (exists k, KeyFile_init example_key = Ok k).
Proof.
  split.
  - eapply (proj1 (identity_cross_check wrong_tag_key _ _ [] _ _ _ _ _
                     eq_refl eq_refl eq_refl eq_refl eq_refl eq_refl
                     eq_refl eq_refl)).
    left. vm_compute. discriminate.
  - eapply (proj2 (proj2 (identity_cross_check example_key _ _ [] _ _ _ _ _
                            eq_refl eq_refl eq_refl eq_refl eq_refl eq_refl
                            eq_refl eq_refl) eq_refl eq_refl)).
    intros l' [<-|[<-|[<-|[<-|[]]]]]; eexists; reflexivity.
Defined.

Lemma file_name_round_trip_witness :
  (exists k0, parse_name example_key = Ok k0)
  /\ (forall k,
        parse_name example_key = Ok k \/ KeyFile_init example_key = Ok k ->
        zone k = $"example.com."
        /\ key_file_name (zone k) (algo k) (keyid k) = f_name example_key
        /\ $"K" ++ __str__ k ++ $".key" = f_name example_key).
Proof.
  apply (file_name_round_trip example_key $"example.com." $"013" $"12345");
    try reflexivity.
  intros H. repeat (destruct H as [H|H]; [discriminate H|]). exact H.
Defined.

Lemma list_keys_spec_witness :
  exists keys,
    list_keys example_dir $"example.com." false
      = ([Warning $"Kexample.com.+013+54321.key"], Ok keys)
    /\ Sorted (fun a b => str_cmp (sort_key a) (sort_key b) <> Gt) keys
    /\ Sorted (fun a b => key_tuple_cmp a b <> Gt) keys.
Proof.
  edestruct (proj1 (proj2 (list_keys_spec example_dir $"example.com." false
                              eq_refl)))
    as (keys & Hl & Hp & Hs & Ht).
  { reflexivity. }
  exists keys. split; [exact Hl|]. split; [exact Hs|].
  apply Ht. repeat constructor.
Defined.

Lemma recursive_pattern_witness :
  glob_match (key_pattern (listed_zone $"example.com." true))
    $"Ksub.example.com.+013+00042.key" = true.
Proof.
  apply (proj2 (recursive_pattern $"example.com." eq_refl) $"sub");
    reflexivity.
Defined.

Lemma key_type_values_witness :
  (exists k, KeyFile_init bare_key = Ok k /\ type k = $"")
  /\ KeyFile_init unknown_purpose_key = Raise ValueError_key_type.
Proof.
  split.
  - eapply (proj1 (proj2 (proj2 (key_type_values bare_key)))).
    + reflexivity.
    + intros l [<-|[<-|[<-|[]]]]; discriminate.
    + intros l [<-|[<-|[<-|[]]]] H; try discriminate H;
        eexists; reflexivity.
  - eapply (proj1 (proj2 (proj2 (proj2 (key_type_values unknown_purpose_key)))
                     _ [] _ _ _ _ eq_refl eq_refl eq_refl eq_refl eq_refl
                     eq_refl)).
Defined.

Lemma call_failure_message_witness :
  exit_status (failing_tool [$"dnssec-settime"; $"-P"; $"2024"]) <> 0
  /\ snd (_call example_dir failing_tool [$"dnssec-settime"; $"-P"; $"2024"])
     = Raise (OSError ($"Error executing process: 1" ++ nl ++ $"None")).
Proof.
  split; [discriminate|].
  apply (call_failure_message example_dir failing_tool
           [$"dnssec-settime"; $"-P"; $"2024"]).
  discriminate.
Defined.

Lemma parse_failures_witness :
  (exists e, KeyFile_init two_field_key = Raise e /\ classify e = ParseError)
  /\ KeyFile_init separator_key = Raise ValueError_int
  /\ (exists k0, parse_name four_field_key = Ok k0
                 /\ zone k0 = $"example.com." /\ algo k0 = 13
                 /\ keyid k0 = 12345
                 /\ KeyFile_init four_field_key
                    = read_lines k0 (f_lines four_field_key))
  /\ KeyFile_init short_date_key = Raise ValueError_date_format.
Proof.
  split; [|split; [|split]].
  - apply (proj1 (parse_failures two_field_key)). vm_compute. lia.
  - refine (proj1 (proj1 (proj2 (parse_failures separator_key))
                     ([ch 28] ++ $"13") $"5" ValueError_int
                     eq_refl eq_refl _)).
    left. reflexivity.
  - exact (proj1 (proj2 (proj2 (parse_failures four_field_key)))
             $"Kexample.com." $"013" $"12345" 13 12345
             eq_refl eq_refl eq_refl eq_refl eq_refl).
  - refine (proj1 (proj1
                     (proj2 (proj2 (proj2 (parse_failures short_date_key)))
                        _ _ [description_line] _ [] _
                        eq_refl eq_refl eq_refl eq_refl eq_refl) _)).
    vm_compute. discriminate.
Defined.

Lemma last_date_line_wins_witness :
  exists k, KeyFile_init republished_key = Ok k
            /\ d_publish k = Some (midnight 2024 1 15).
Proof.
  eexists. split; [reflexivity|].
  pose proof (proj1 (last_date_line_wins republished_key) _ Publish
                eq_refl eq_refl) as H.
  cbv in H. destruct H as (d & Hd & Hf). reflexivity.
Defined.

(** ** Inputs on which the specification and the code differ *)

(** Counterexample to C3 as stated.  The comment of [host_key] gives the key
    tag 54321 and the file name 12345, yet construction does not fail with
    the identity-mismatch error: the unknown key purpose is reported first.
    In [late_description_key] the malformed date line before the comment is
    reported first. *)
Lemma host_key_not_identity_error :
  In host_line (f_lines host_key)
  /\ kind_of host_line = Description
  /\ embedded_keyid host_line = Some 54321
  /\ (exists k0, parse_name host_key = Ok k0 /\ keyid k0 = 12345)
  /\ KeyFile_init host_key = Raise ValueError_key_type
  /\ ~ (exists e, KeyFile_init host_key = Raise e
                  /\ classify e = IdentityMismatchError)
  /\ KeyFile_init late_description_key = Raise ValueError_date_format.
Proof.
  split; [now left|]. split; [reflexivity|]. split; [reflexivity|].
  split; [eexists; split; reflexivity|]. split; [reflexivity|].
  split; [|reflexivity].
  intros (e & He & Hc). vm_compute in He. injection He as <-. discriminate.
Qed.

(** Counterexample to C5 as stated.  Listed from the root, the records of
    [escaped_dir] come back with the zone [example.%2Fb.] before the zone
    [example.], which is not the ascending order of the tuples: the sort keys
    differ where one has [%] and the other the separator [+]. *)
Lemma escaped_dir_not_tuple_sorted :
  exists keys,
    list_keys escaped_dir $"." true = ([], Ok keys)
    /\ map zone keys = [$"example.%2Fb."; $"example."]
    /\ ~ Sorted (fun a b => key_tuple_cmp a b <> Gt) keys.
Proof.
  eexists. split; [vm_compute; reflexivity|]. split; [reflexivity|].
  intros H. inversion H as [|? ? _ Hhd]. inversion Hhd as [|? ? Hc].
  apply Hc. reflexivity.
Qed.

(** Counterexample to C6 as stated.  The key file of the zone itself matches
    the pattern of the zone but not the pattern used with [recursive], and
    the recursive listing leaves the key of the zone out. *)
Lemma recursive_pattern_misses_zone :
  glob_match (key_pattern $"example.com.") $"Kexample.com.+013+12345.key"
    = true
  /\ glob_match (key_pattern (listed_zone $"example.com." true))
       $"Kexample.com.+013+12345.key" = false
  /\ (exists keys, snd (list_keys example_dir $"example.com." true) = Ok keys
                   /\ map name keys = [$"Ksub.example.com.+013+00042"]).
Proof.
  split; [reflexivity|]. split; [reflexivity|].
  eexists. split; vm_compute; reflexivity.
Qed.

(** Counterexample to C7 as stated.  The descriptive comment of
    [unknown_purpose_key] names a purpose that is not recognized; no record,
    with an empty type or any other, is constructed. *)
Lemma unknown_purpose_not_constructed :
  (exists l w, In l (f_lines unknown_purpose_key)
               /\ kind_of l = Description
               /\ purpose_word l = Some w /\ recognized w = false)
  /\ ~ (exists k, KeyFile_init unknown_purpose_key = Ok k).
Proof.
  split.
  - do 2 eexists. split; [now left|]. repeat split.
  - intros (k & Hk). vm_compute in Hk. discriminate.
Qed.

(** Counterexample to C9 as stated.  The stem of [four_field_key] splits
    into four fields, and the record is constructed.
    [early_description_key] has a date line whose date token is eight
    characters long, and construction fails on the comment before it, with
    the identity-mismatch error. *)
Lemma four_fields_accepted :
  length (split_on "+" (stem (f_name four_field_key))) = 4%nat
  /\ (exists k, KeyFile_init four_field_key = Ok k
                /\ zone k = $"example.com." /\ algo k = 13 /\ keyid k = 12345)
  /\ KeyFile_init early_description_key = Raise ValueError_keyid
  /\ classify ValueError_keyid <> ParseError.
Proof.
  split; [reflexivity|]. split.
  - eexists. split; [vm_compute; reflexivity|]. repeat split.
  - split; [reflexivity | discriminate].
Qed.

(** Counterexample to C10 as stated.  In [annotated_key] the label
    [Publish:] appears on two comment lines.  The last of them is the
    creation line, whose date is that of the creation; the publication time
    of the record is the date of the first. *)
Lemma annotated_key_keeps_first :
  length (filter (comment_with $"Publish:") (f_lines annotated_key)) = 2%nat
  /\ last_such (comment_with $"Publish:") (f_lines annotated_key)
     = Some annotated_line
  /\ date_part annotated_line = Ok (mkdt 2023 12 15 9 30 0 0)
  /\ exists k, KeyFile_init annotated_key = Ok k
               /\ d_publish k = Some (midnight 2024 1 1).
Proof.
  split; [reflexivity|]. split; [reflexivity|]. split; [reflexivity|].
  eexists. split; [vm_compute; reflexivity|]. reflexivity.
Qed.

(** * Further properties *)

(** ** The life of a key in time *)

Lemma dt_leb_later (x t1 t2 : datetime) :
  dt_le t1 t2 -> dt_leb x t1 = true -> dt_leb x t2 = true.
Proof. intros H12 H. exact (dt_le_trans x t1 t2 H H12). Qed.

Lemma dt_gtb_earlier (c t1 t2 : datetime) :
  dt_le t1 t2 -> dt_gtb c t2 = true -> dt_gtb c t1 = true.
Proof.
  intros H12 H. apply dt_gtb_lt in H. apply dt_gtb_lt.
  destruct (dt_ltb t1 c) eqn:E; [exact E|]. exfalso.
  assert (Hc : dt_le c t1).
  { apply dt_le_not_lt. unfold dt_lt. congruence. }
  apply (proj1 (dt_le_not_lt c t2)); [|exact H].
  exact (dt_le_trans c t1 t2 Hc H12).
Qed.

Lemma set_and_le_later (x : option datetime) (t1 t2 : datetime) :
  dt_le t1 t2 -> set_and_le x t1 = true -> set_and_le x t2 = true.
Proof. destruct x; simpl; [apply dt_leb_later | auto]. Qed.

Lemma set_and_gt_earlier (x : option datetime) (t1 t2 : datetime) :
  dt_le t1 t2 -> set_and_gt x t2 = true -> set_and_gt x t1 = true.
Proof. destruct x; simpl; [apply dt_gtb_earlier | auto]. Qed.

(** X1.  As the reference time advances a key never returns to an earlier
    stage: the labels FUT, empty, PUB, ACT, INAC, DEL follow each other in
    this order, whatever the timestamps of the key are. *)
Theorem state_never_goes_back (k : KeyFile) (t1 t2 : datetime) :
  dt_le t1 t2 ->
  (stage_rank (state k t1) <= stage_rank (state k t2))%nat.
Proof.
  intros H12. unfold state.
  pose proof (set_and_le_later (d_delete k) t1 t2 H12) as Hd.
  pose proof (set_and_le_later (d_inactive k) t1 t2 H12) as Hi.
  pose proof (set_and_le_later (d_active k) t1 t2 H12) as Ha.
  pose proof (set_and_le_later (d_publish k) t1 t2 H12) as Hp.
  pose proof (set_and_gt_earlier (d_create k) t1 t2 H12) as Hc.
  destruct (set_and_le (d_delete k) t1), (set_and_le (d_delete k) t2);
    try (discriminate (Hd eq_refl)); try (cbv; lia);
  destruct (set_and_le (d_inactive k) t1), (set_and_le (d_inactive k) t2);
    try (discriminate (Hi eq_refl)); try (cbv; lia);
  destruct (set_and_le (d_active k) t1), (set_and_le (d_active k) t2);
    try (discriminate (Ha eq_refl)); try (cbv; lia);
  destruct (set_and_le (d_publish k) t1), (set_and_le (d_publish k) t2);
    try (discriminate (Hp eq_refl)); try (cbv; lia);
  destruct (set_and_gt (d_create k) t1), (set_and_gt (d_create k) t2);
    try (discriminate (Hc eq_refl)); cbv; lia.
Qed.

(** The rank of the state, read off the four timestamps in their order. *)
Lemma stage_rank_state (k : KeyFile) (t : datetime) :
  stage_rank (state k t) =
    match reached_from 2 t
            [d_publish k; d_active k; d_inactive k; d_delete k] with
    | O => if set_and_gt (d_create k) t then 0%nat else 1%nat
    | S m => S m
    end.
Proof.
  unfold state. cbn [reached_from].
  destruct (set_and_le (d_delete k) t); [reflexivity|].
  destruct (set_and_le (d_inactive k) t); [reflexivity|].
  destruct (set_and_le (d_active k) t); [reflexivity|].
  destruct (set_and_le (d_publish k) t); [reflexivity|].
  destruct (set_and_gt (d_create k) t); reflexivity.
Qed.

Lemma reached_from_bound (n : nat) (t : datetime) (l : list (option datetime)) :
  reached_from n t l = 0%nat \/ (n <= reached_from n t l)%nat.
Proof.
  revert n; induction l as [|x l IH]; intros n; cbn [reached_from]; auto.
  destruct (IH (S n)) as [E|E].
  - rewrite E. destruct (set_and_le x t); auto.
  - destruct (reached_from (S n) t l); [lia | right; lia].
Qed.

Lemma reached_from_none (n : nat) (t : datetime) (l : list (option datetime)) :
  (forall d, In d (filter_set l) -> dt_leb d t = false) ->
  reached_from n t l = 0%nat.
Proof.
  revert n; induction l as [|x l IH]; intros n H; cbn [reached_from]; auto.
  rewrite IH.
  - destruct x as [a|]; cbn [set_and_le]; auto.
    rewrite H; [reflexivity | now left].
  - intros d Hd. apply H. destruct x; [now right | exact Hd].
Qed.

Lemma reached_from_set (n : nat) (a : datetime) (l : list (option datetime)) :
  (0 < n)%nat -> (n <= reached_from n a (Some a :: l))%nat.
Proof.
  intros Hn. cbn [reached_from set_and_le].
  destruct (reached_from_bound (S n) a l) as [E|E].
  - rewrite E. replace (dt_leb a a) with true; [lia|].
    symmetry. apply dt_le_refl.
  - destruct (reached_from (S n) a l); lia.
Qed.

Lemma reached_advances (l : list (option datetime)) :
  forall (n : nat) (t d : datetime),
    (0 < n)%nat ->
    StronglySorted dt_le (filter_set l) ->
    first_after t (filter_set l) = ChangeAt d ->
    (reached_from n t l < reached_from n d l)%nat.
Proof.
  induction l as [|x l IH]; intros n t d Hn Hs Hf; [discriminate|].
  destruct x as [a|].
  - cbn [filter_set first_after] in Hs, Hf.
    inversion Hs as [|? ? Hs' Hall]; subst.
    destruct (dt_gtb a t) eqn:Ea.
    + injection Hf as <-.
      pose proof (reached_from_set n a l Hn) as Hd.
      rewrite (reached_from_none n t (Some a :: l)); [lia|].
      assert (Hat : dt_leb a t = false).
      { apply dt_gtb_lt in Ea. apply not_true_is_false.
        intros H. exact (proj1 (dt_le_not_lt a t) H Ea). }
      cbn [filter_set]. intros d [<-|Hd']; [exact Hat|].
      apply not_true_is_false. intros H.
      rewrite Forall_forall in Hall. specialize (Hall d Hd').
      assert (Hle : dt_le a t) by exact (dt_le_trans a d t Hall H).
      unfold dt_le in Hle. congruence.
    + specialize (IH (S n) t d (Nat.lt_0_succ n) Hs' Hf).
      cbn [reached_from].
      destruct (reached_from_bound (S n) d l) as [E|E]; [lia|].
      destruct (reached_from (S n) d l) as [|m]; [lia|].
      destruct (reached_from (S n) t l) as [|m']; [|lia].
      destruct (set_and_le (Some a) t); lia.
  - cbn [filter_set] in Hs, Hf. cbn [reached_from set_and_le].
    specialize (IH (S n) t d (Nat.lt_0_succ n) Hs Hf).
    destruct (reached_from (S n) t l), (reached_from (S n) d l); lia.
Qed.

Lemma next_change_at (k : KeyFile) (t d : datetime) :
  next_change k t = ChangeAt d ->
  StronglySorted dt_le (assigned k)
  /\ first_after t (assigned k) = ChangeAt d.
Proof.
  unfold next_change.
  destruct (list_eqb dt_eqb _ (assigned k)) eqn:E; [|discriminate].
  intros H. split; [|exact H].
  apply list_eqb_dt_eq in E. apply sorted_dt_fixed in E.
  apply Sorted_StronglySorted; [|exact E].
  intros a b c. apply dt_le_trans.
Qed.

(** X2.  When [next_change] returns a time, the key is at a later stage at
    that time than at the reference time: the change it announces is a
    change of state. *)
Theorem next_change_advances (k : KeyFile) (t d : datetime) :
  next_change k t = ChangeAt d ->
  (stage_rank (state k t) < stage_rank (state k d))%nat.
Proof.
  intros H. apply next_change_at in H as [Hs Hf].
  pose proof (reached_advances
                [d_publish k; d_active k; d_inactive k; d_delete k]
                2 t d (Nat.lt_0_succ 1) Hs Hf) as Hlt.
  rewrite !stage_rank_state.
  pose proof (reached_from_bound 2 d
                [d_publish k; d_active k; d_inactive k; d_delete k]) as Hd.
  destruct (reached_from 2 d _) as [|m]; [lia|].
  destruct (reached_from_bound 2 t
              [d_publish k; d_active k; d_inactive k; d_delete k]) as [E|E].
  - rewrite E. destruct (set_and_gt (d_create k) t); lia.
  - destruct (reached_from 2 t _); lia.
Qed.

Lemma filter_set_app (l1 l2 : list (option datetime)) :
  filter_set (l1 ++ l2) = filter_set l1 ++ filter_set l2.
Proof.
  induction l1 as [|[a|] l1 IH]; cbn [app filter_set]; auto.
  now rewrite IH.
Qed.

Lemma StronglySorted_last (l : list datetime) (x : datetime) :
  StronglySorted dt_le (l ++ [x]) -> forall d, In d (l ++ [x]) -> dt_le d x.
Proof.
  induction l as [|a l IH]; cbn [app]; intros Hs d Hd.
  - destruct Hd as [<-|[]]. apply dt_le_refl.
  - inversion Hs as [|? ? Hs' Hall]; subst. destruct Hd as [<-|Hd].
    + rewrite Forall_forall in Hall. apply Hall.
      apply in_or_app. right. now left.
    + now apply IH.
Qed.

Lemma state_DEL (k : KeyFile) (t : datetime) :
  state k t = $"DEL" <-> set_and_le (d_delete k) t = true.
Proof.
  unfold state.
  destruct (set_and_le (d_delete k) t); [tauto|].
  destruct (set_and_le (d_inactive k) t); [split; discriminate|].
  destruct (set_and_le (d_active k) t); [split; discriminate|].
  destruct (set_and_le (d_publish k) t); [split; discriminate|].
  destruct (set_and_gt (d_create k) t); split; discriminate.
Qed.

(** X3.  For a key with a deletion time and a consistent schedule,
    [next_change] has nothing left to announce exactly when the state is
    DEL. *)
Theorem no_change_iff_deleted (k : KeyFile) (t x : datetime) :
  d_delete k = Some x ->
  Sorted dt_le (assigned k) ->
  (next_change k t = NoChange <-> state k t = $"DEL").
Proof.
  intros Hx Hs. rewrite state_DEL, Hx. cbn [set_and_le].
  assert (Hlast : assigned k
                  = filter_set [d_publish k; d_active k; d_inactive k] ++ [x]).
  { unfold assigned. rewrite Hx.
    change [d_publish k; d_active k; d_inactive k; Some x]
      with ([d_publish k; d_active k; d_inactive k] ++ [Some x]).
    now rewrite filter_set_app. }
  assert (Hss : StronglySorted dt_le (assigned k)).
  { apply Sorted_StronglySorted; [|exact Hs]. intros a b c. apply dt_le_trans. }
  unfold next_change.
  replace (list_eqb dt_eqb (sorted_by (fun d => d) dt_ltb (assigned k))
             (assigned k)) with true.
  2:{ symmetry. apply list_eqb_dt_eq. now apply sorted_dt_fixed. }
  rewrite first_after_none. split.
  - intros H. apply dt_le_not_lt. apply H. rewrite Hlast.
    apply in_or_app. right. now left.
  - intros Hxt d Hd. apply dt_le_not_lt.
    apply (dt_le_trans d x t); [|exact Hxt].
    rewrite Hlast in Hss, Hd. exact (StronglySorted_last _ _ Hss d Hd).
Qed.

(** ** Dates written and read *)

Lemma all_from_sound (p : Z -> bool) (fuel : nat) (n : Z) :
  all_from p fuel n = true ->
  forall k, n <= k < n + Z.of_nat fuel -> p k = true.
Proof.
  revert n; induction fuel as [|fuel IH]; intros n H k Hk; [lia|].
  cbn [all_from] in H. destruct (p n) eqn:E; [|discriminate].
  destruct (Z.eq_dec k n) as [->|Hne]; [exact E|].
  apply (IH (n + 1) H). lia.
Qed.

Lemma written_in_spec (w : nat) (s : str) (n : Z) :
  written_in w s n = true ->
  length s = w /\ all_digits s = true /\ nat_literal s = Some n.
Proof.
  unfold written_in. rewrite !andb_true_iff. intros [[Hl Hd] Hn].
  apply Nat.eqb_eq in Hl. repeat split; auto.
  destruct (nat_literal s); [|discriminate].
  apply Z.eqb_eq in Hn. now subst.
Qed.

Lemma two_digits_checked :
  all_from (fun n => written_in 2 (format_0d 2 n) n) 100 0 = true.
Proof. vm_compute. reflexivity. Qed.

Lemma four_digits_checked :
  all_from (fun y => written_in 4 (str_of_int y) y) (Z.to_nat 9000) 1000
  = true.
Proof. vm_compute. reflexivity. Qed.

Lemma two_digits (n : Z) :
  0 <= n <= 99 ->
  length (format_0d 2 n) = 2%nat /\ all_digits (format_0d 2 n) = true
  /\ nat_literal (format_0d 2 n) = Some n.
Proof.
  intros H. apply written_in_spec.
  apply (all_from_sound _ _ _ two_digits_checked). lia.
Qed.

Lemma four_digits (y : Z) :
  1000 <= y <= 9999 ->
  length (str_of_int y) = 4%nat /\ all_digits (str_of_int y) = true
  /\ nat_literal (str_of_int y) = Some y.
Proof.
  intros H. apply written_in_spec.
  apply (all_from_sound _ _ _ four_digits_checked).
  rewrite Z2Nat.id; lia.
Qed.

Lemma field_app (a x b : str) (from len : nat) :
  length a = from -> length x = len ->
  field (a ++ x ++ b) from len = nat_literal x.
Proof.
  intros <- <-. unfold field.
  rewrite skipn_app, skipn_all, Nat.sub_diag. cbn [skipn app].
  rewrite firstn_app, firstn_all, Nat.sub_diag. cbn [firstn].
  now rewrite app_nil_r.
Qed.

Section DateStr.
Variable small_year : Z -> str.

Lemma date_str_fields (d : datetime) :
  four_digit_time d ->
  exists y m dd hh mm ss,
    date_str small_year d = y ++ m ++ dd ++ hh ++ mm ++ ss
    /\ (length y = 4 /\ length m = 2 /\ length dd = 2
        /\ length hh = 2 /\ length mm = 2 /\ length ss = 2)%nat
    /\ all_digits (date_str small_year d) = true
    /\ nat_literal y = Some (year d) /\ nat_literal m = Some (month d)
    /\ nat_literal dd = Some (day d) /\ nat_literal hh = Some (hour d)
    /\ nat_literal mm = Some (minute d) /\ nat_literal ss = Some (second d).
Proof.
  intros (Hy & Hm & Hd & Hh & Hmi & Hs & _).
  assert (Hdim : days_in_month (year d) (month d) <= 31).
  { unfold days_in_month.
    repeat match goal with
           | |- context [if ?b then _ else _] => destruct b
           end; lia. }
  destruct (four_digits (year d) Hy) as (Ly & Dy & Ny).
  destruct (two_digits (month d)) as (Lm & Dm & Nm); [lia|].
  destruct (two_digits (day d)) as (Ld & Dd & Nd); [lia|].
  destruct (two_digits (hour d)) as (Lh & Dh & Nh); [lia|].
  destruct (two_digits (minute d)) as (Lmi & Dmi & Nmi); [lia|].
  destruct (two_digits (second d)) as (Ls & Ds & Ns); [lia|].
  exists (str_of_int (year d)), (format_0d 2 (month d)),
    (format_0d 2 (day d)), (format_0d 2 (hour d)),
    (format_0d 2 (minute d)), (format_0d 2 (second d)).
  assert (HY : strftime_Y small_year (year d) = str_of_int (year d)).
  { unfold strftime_Y. replace (1000 <=? year d) with true; auto.
    symmetry. apply Z.leb_le. lia. }
  unfold date_str. rewrite HY. split; [reflexivity|]. split; [tauto|].
  split; [|tauto].
  unfold all_digits in *. rewrite !forallb_app.
  now rewrite Dy, Dm, Dd, Dh, Dmi, Ds.
Qed.

Lemma strptime_date_str (d : datetime) :
  four_digit_time d -> strptime (date_str small_year d) = Ok d.
Proof.
  intros Hv.
  destruct (date_str_fields d Hv)
    as (y & m & dd & hh & mm & ss & -> & (Ly & Lm & Ld & Lh & Lmi & Ls)
        & _ & Ny & Nm & Nd & Nh & Nmi & Ns).
  destruct Hv as (Hy & Hm & Hd & Hh & Hmi & Hs & Hus).
  unfold strptime.
  assert (F1 : field (y ++ m ++ dd ++ hh ++ mm ++ ss) 0 4 = Some (year d)).
  { rewrite <- Ny. apply (field_app [] y); auto. }
  assert (F2 : field (y ++ m ++ dd ++ hh ++ mm ++ ss) 4 2 = Some (month d)).
  { rewrite <- Nm. apply (field_app y m); auto. }
  assert (F3 : field (y ++ m ++ dd ++ hh ++ mm ++ ss) 6 2 = Some (day d)).
  { rewrite <- Nd, (app_assoc y m). apply (field_app (y ++ m) dd); auto.
    rewrite length_app. lia. }
  assert (F4 : field (y ++ m ++ dd ++ hh ++ mm ++ ss) 8 2 = Some (hour d)).
  { rewrite <- Nh, (app_assoc y m), (app_assoc (y ++ m) dd).
    apply (field_app ((y ++ m) ++ dd) hh); auto.
    rewrite !length_app. lia. }
  assert (F5 : field (y ++ m ++ dd ++ hh ++ mm ++ ss) 10 2 = Some (minute d)).
  { rewrite <- Nmi, (app_assoc y m), (app_assoc (y ++ m) dd),
      (app_assoc ((y ++ m) ++ dd) hh).
    apply (field_app (((y ++ m) ++ dd) ++ hh) mm); auto.
    rewrite !length_app. lia. }
  assert (F6 : field (y ++ m ++ dd ++ hh ++ mm ++ ss) 12 2 = Some (second d)).
  { rewrite <- Ns, (app_assoc y m), (app_assoc (y ++ m) dd),
      (app_assoc ((y ++ m) ++ dd) hh), (app_assoc (((y ++ m) ++ dd) ++ hh) mm),
      <- (app_nil_r ss) at 1.
    apply (field_app ((((y ++ m) ++ dd) ++ hh) ++ mm) ss []); auto.
    rewrite !length_app. lia. }
  rewrite F1, F2, F3, F4, F5, F6.
  replace (length (y ++ m ++ dd ++ hh ++ mm ++ ss)) with 14%nat
    by (rewrite !length_app; lia).
  cbn [Nat.eqb andb].
  repeat match goal with
         | |- context [?a <=? ?b] =>
             replace (a <=? b) with true by (symmetry; apply Z.leb_le; lia)
         end.
  cbn [andb]. destruct d; cbn in *. now subst.
Qed.

(** X4.  A proper date and time in a year of four digits is written by
    [date_str] as fourteen digits, the length that [date_part] asks for, and
    the parser of [date_part] reads them back as the same date and time. *)
Theorem date_str_round_trip (d : datetime) :
  four_digit_time d ->
  length (date_str small_year d) = 14%nat
  /\ all_digits (date_str small_year d) = true
  /\ strptime (date_str small_year d) = Ok d.
Proof.
  intros Hv. split; [|split; [|now apply strptime_date_str]].
  - destruct (date_str_fields d Hv)
      as (y & m & dd & hh & mm & ss & -> & (Ly & Lm & Ld & Lh & Lmi & Ls) & _).
    rewrite !length_app. lia.
  - now destruct (date_str_fields d Hv)
      as (y & m & dd & hh & mm & ss & _ & _ & H & _).
Qed.
End DateStr.

Lemma split_ws_space (c : ascii) (s : str) :
  is_space c = true -> split_ws (c :: s) = split_ws s.
Proof. intros H. cbn [split_ws]. now rewrite H. Qed.

Lemma split_ws_word (w rest : str) :
  word w ->
  rest = [] \/ (exists c r, rest = c :: r /\ is_space c = true) ->
  split_ws (w ++ rest) = w :: split_ws rest.
Proof.
  intros [Hne Hw] Hrest. induction w as [|c w IH]; [congruence|].
  cbn [forallb] in Hw. apply andb_true_iff in Hw as [Hc Hw].
  apply negb_true_iff in Hc. destruct w as [|c' w].
  - cbn [app]. destruct Hrest as [->|(x & r & -> & Hx)].
    + cbn. now rewrite Hc.
    + cbn [split_ws]. now rewrite Hc, Hx.
  - assert (Hc' : is_space c' = false).
    { cbn [forallb] in Hw. apply andb_true_iff in Hw as [Hc' _].
      now apply negb_true_iff in Hc'. }
    change ((c :: c' :: w) ++ rest) with (c :: (c' :: w) ++ rest).
    remember ((c' :: w) ++ rest) as tail eqn:Et.
    cbn [split_ws]. rewrite Hc.
    assert (Htail : split_ws tail = (c' :: w) :: split_ws rest).
    { subst tail. apply IH; [discriminate | exact Hw]. }
    destruct tail as [|x tail']; [discriminate|].
    injection Et as -> _. rewrite Hc'. now rewrite Htail.
Qed.

(** X5.  [date_part] looks at the third word of a line only: whatever the
    first two words and the text after the third are, the result is that of
    the third word, a format error when it is not fourteen characters long
    and what the parser makes of it otherwise. *)
Theorem date_part_third_word (w1 w2 tok rest : str) :
  word w1 -> word w2 -> word tok ->
  rest = [] \/ (exists c r, rest = c :: r /\ is_space c = true) ->
  date_part (w1 ++ $" " ++ w2 ++ $" " ++ tok ++ rest)
  = if (length tok =? 14)%nat then strptime tok
    else Raise ValueError_date_format.
Proof.
  intros H1 H2 H3 Hrest. unfold date_part.
  change $" " with [" "%char]. cbn [app].
  rewrite (split_ws_word w1) by (auto; right; eauto).
  rewrite split_ws_space by reflexivity.
  rewrite (split_ws_word w2) by (auto; right; eauto).
  rewrite split_ws_space by reflexivity.
  rewrite (split_ws_word tok) by auto.
  unfold index. cbn [nth_error bind].
  change (length $"yyyymmddhhmmss") with 14%nat.
  now destruct (length tok =? 14)%nat.
Qed.

(** ** What the constructor reads *)



Lemma parse_name_paths (f : file) (k0 : KeyFile) :
  parse_name f = Ok k0 ->
  path_rr k0 = f_name f
  /\ path_pk k0 = with_suffix (f_name f) $".private"
  /\ name k0 = stem (f_name f)
  /\ exists w, nth_error (split_on "+" (stem (f_name f))) 0 = Some w
               /\ zone k0 = tl w.
Proof.
  unfold parse_name, index. intros H.
  apply bind_ok in H as (ff0 & H0 & H).
  apply bind_ok in H as (a & _ & H).
  apply bind_ok in H as (i & _ & H).
  injection H as <-. cbn [path_rr path_pk name zone].
  split; [reflexivity|]. split; [reflexivity|]. split; [reflexivity|].
  destruct (nth_error _ 0) as [w|]; [|discriminate].
  injection H0 as ->. eauto.
Qed.

Lemma KeyFile_init_paths (f : file) (k : KeyFile) :
  KeyFile_init f = Ok k ->
  path_rr k = f_name f
  /\ path_pk k = with_suffix (f_name f) $".private"
  /\ name k = stem (f_name f)
  /\ exists w, nth_error (split_on "+" (stem (f_name f))) 0 = Some w
               /\ zone k = tl w.
Proof.
  intros H. apply bind_ok in H as (k0 & Hn & Hr).
  apply read_lines_identity in Hr.
  destruct (parse_name_paths f k0 Hn) as (H1 & H2 & H3 & w & Hw & Hz).
  destruct Hr as (R1 & R2 & R3 & _ & _ & _ & R7 & _).
  rewrite <- R1, <- R2, <- R3, <- R7. eauto 8.
Qed.

(** ** What list_keys returns *)

Lemma list_keys_result (self : DnsSec) (z : str) (recursive : bool)
      (keys : list KeyFile) :
  snd (list_keys self z recursive) = Ok keys ->
  exists ks,
    init_all (filter (has_private self)
                (glob self (key_pattern (listed_zone z recursive)))) = Ok ks
    /\ keys = sorted_by sort_key str_ltb ks.
Proof.
  rewrite list_keys_unfold. cbn [snd]. unfold _iter_keyfiles.
  change (fun f => if negb (exists_ self (with_suffix (f_name f) $".private"))
                   then Warn (f_name f) else Yield f)
    with (fun f => if negb (has_private self f) then Warn (f_name f)
                   else Yield f).
  rewrite collect_result. intros H.
  apply bind_ok in H as (ks0 & H0 & H).
  apply bind_ok in H0 as (ks & Hks & H0). injection H0 as <-.
  injection H as <-. eauto.
Qed.

Lemma listed_key_file (self : DnsSec) (z : str)
      (keys : list KeyFile) :
  snd (list_keys self z false) = Ok keys ->
  forall k, In k keys ->
    exists f, glob_match (key_pattern (listed_zone z false)) (f_name f) = true
              /\ KeyFile_init f = Ok k.
Proof.
  intros H k Hk. apply list_keys_result in H as (ks & Hks & ->).
  apply (Permutation_in _
           (Permutation_sym (sorted_by_Permutation sort_key str_cmp ks)))
    in Hk.
  destruct (init_all_In _ _ Hks k Hk) as (f & Hf & Hinit).
  apply filter_In in Hf as [Hf _]. apply filter_In in Hf as [_ Hm].
  eauto.
Qed.

(** X7.  For a zone without pattern characters, every record that
    [list_keys] returns is the record of a file of the key directory named
    [K<zone>+<a>+<b>.key], with [recursive] [K<prefix>.<zone>+<a>+<b>.key]:
    its [path_rr] is the name of that file, and both [path_rr] and [path_pk]
    name files that exist.  A key without its private half is never
    listed. *)
Theorem listed_keys_are_paired (self : DnsSec) (z : str) (recursive : bool)
      (keys : list KeyFile) :
  plain z = true ->
  snd (list_keys self z recursive) = Ok keys ->
  forall k, In k keys ->
    exists f,
      In f (path self)
      /\ key_name_for z recursive (f_name f)
      /\ KeyFile_init f = Ok k
      /\ path_rr k = f_name f
      /\ exists_ self (path_rr k) = true
      /\ exists_ self (path_pk k) = true.
Proof.
  intros Hz H k Hk. apply list_keys_result in H as (ks & Hks & ->).
  apply (Permutation_in _
           (Permutation_sym (sorted_by_Permutation sort_key str_cmp ks)))
    in Hk.
  destruct (init_all_In _ _ Hks k Hk) as (f & Hf & Hinit).
  apply filter_In in Hf as [Hf Hpriv]. apply filter_In in Hf as [Hf Hm].
  apply (key_pattern_listed z recursive (f_name f) Hz) in Hm.
  destruct (KeyFile_init_paths f k Hinit) as (H1 & H2 & _).
  exists f. split; [exact Hf|]. split; [exact Hm|].
  split; [exact Hinit|]. split; [exact H1|]. split.
  - unfold exists_. apply existsb_exists. exists f. split; auto.
    rewrite H1. apply str_eqb_refl.
  - rewrite H2. exact Hpriv.
Qed.

(** X8.  Asked without [recursive] for a zone that has neither pattern
    characters nor a [+], [list_keys] returns records of that zone only. *)
Theorem listed_keys_of_zone (self : DnsSec) (z : str) (keys : list KeyFile) :
  plain z = true -> ~ In "+"%char z ->
  snd (list_keys self z false) = Ok keys ->
  forall k, In k keys -> zone k = z.
Proof.
  intros Hz Hplus H k Hk.
  destruct (listed_key_file self z keys H k Hk) as (f & Hm & Hinit).
  cbn [listed_zone] in Hm.
  apply key_pattern_plain in Hm as (a & b & Hname); [|exact Hz].
  destruct (KeyFile_init_paths f k Hinit) as (_ & _ & _ & w & Hw & Hzone).
  assert (Hstem : stem (f_name f)
                  = ("K"%char :: z) ++ "+"%char :: (a ++ $"+" ++ b)).
  { rewrite Hname.
    replace ($"K" ++ z ++ $"+" ++ a ++ $"+" ++ b ++ $".key")
      with ((("K"%char :: z) ++ "+"%char :: (a ++ $"+" ++ b)) ++ $".key").
    - apply stem_key. discriminate.
    - change $"K" with ["K"%char]. change $"+" with ["+"%char].
      cbn [app]. rewrite <- !app_assoc. cbn [app].
      now rewrite <- !app_assoc. }
  rewrite Hstem, split_on_app in Hw.
  - injection Hw as <-. exact Hzone.
  - intros [E|E]; [discriminate | tauto].
Qed.

(** *** The order in which the directory is scanned *)

Lemma filter_Permutation {A} (p : A -> bool) (l1 l2 : list A) :
  Permutation l1 l2 -> Permutation (filter p l1) (filter p l2).
Proof.
  induction 1 as [|x l1 l2 _ IH|x y l|l1 l2 l3 _ IH1 _ IH2]; cbn [filter].
  - constructor.
  - destruct (p x); auto.
  - destruct (p x), (p y); auto. apply perm_swap.
  - now transitivity (filter p l2).
Qed.

Lemma filter_ext_eq {A} (p q : A -> bool) (l : list A) :
  (forall x, p x = q x) -> filter p l = filter q l.
Proof.
  intros H. induction l as [|x l IH]; cbn [filter]; auto.
  rewrite H, IH. reflexivity.
Qed.

Lemma exists_Permutation (d1 d2 : DnsSec) (n : str) :
  Permutation (path d1) (path d2) -> exists_ d1 n = exists_ d2 n.
Proof.
  intros H. unfold exists_.
  destruct (existsb _ (path d2)) eqn:E.
  - apply existsb_exists in E as (f & Hf & E). apply existsb_exists.
    exists f. split; auto. apply (Permutation_in _ (Permutation_sym H) Hf).
  - destruct (existsb _ (path d1)) eqn:E1; auto.
    apply existsb_exists in E1 as (f & Hf & E1).
    assert (E2 : existsb (fun f => str_eqb (f_name f) n) (path d2) = true).
    { apply existsb_exists. exists f. split; auto.
      apply (Permutation_in _ H Hf). }
    congruence.
Qed.

Lemma init_all_Permutation (fs1 fs2 : list file) :
  Permutation fs1 fs2 ->
  forall ks1, init_all fs1 = Ok ks1 ->
  exists ks2, init_all fs2 = Ok ks2 /\ Permutation ks1 ks2.
Proof.
  induction 1 as [|f l1 l2 _ IH|f g l|l1 l2 l3 _ IH1 _ IH2]; intros ks1 H.
  - exists ks1. auto.
  - cbn [init_all] in *. apply bind_ok in H as (k & Hk & H).
    apply bind_ok in H as (ks & Hks & H). injection H as <-.
    destruct (IH _ Hks) as (ks2 & H2 & HP).
    exists (k :: ks2). rewrite Hk, H2. cbn [bind]. auto.
  - cbn [init_all] in *. apply bind_ok in H as (k & Hk & H).
    apply bind_ok in H as (ks & Hks & H). injection H as <-.
    apply bind_ok in Hks as (k' & Hk' & H).
    apply bind_ok in H as (ks' & Hks' & H). injection H as <-.
    exists (k' :: k :: ks'). rewrite Hk, Hk', Hks'. cbn [bind].
    split; auto. apply perm_swap.
  - destruct (IH1 _ H) as (ks2 & H2 & P2).
    destruct (IH2 _ H2) as (ks3 & H3 & P3).
    exists ks3. split; auto. now transitivity ks2.
Qed.

Lemma strictly_sorted_unique {A} (R : A -> A -> Prop) (l1 l2 : list A) :
  (forall x y, R x y -> R y x -> False) ->
  StronglySorted R l1 -> StronglySorted R l2 -> Permutation l1 l2 ->
  l1 = l2.
Proof.
  intros Hasym. revert l2.
  induction l1 as [|x l1 IH]; intros l2 S1 S2 P.
  - apply Permutation_nil in P. now subst.
  - destruct l2 as [|y l2].
    + apply Permutation_sym, Permutation_nil in P. discriminate.
    + inversion S1 as [|? ? S1' F1]; subst.
      inversion S2 as [|? ? S2' F2]; subst.
      assert (E : x = y).
      { assert (Hx : In x (y :: l2))
          by (apply (Permutation_in _ P); now left).
        assert (Hy : In y (x :: l1))
          by (apply (Permutation_in _ (Permutation_sym P)); now left).
        destruct Hx as [->|Hx]; auto. destruct Hy as [->|Hy]; auto.
        rewrite Forall_forall in F1, F2.
        destruct (Hasym x y (F1 _ Hy) (F2 _ Hx)). }
      subst y. f_equal. apply IH; auto.
      now apply Permutation_cons_inv in P.
Qed.

Lemma Sorted_distinct_keys (ks : list KeyFile) :
  Sorted (fun a b => str_cmp (sort_key a) (sort_key b) <> Gt) ks ->
  NoDup (map sort_key ks) ->
  StronglySorted (fun a b => str_cmp (sort_key a) (sort_key b) = Lt) ks.
Proof.
  intros Hs Hn. apply Sorted_StronglySorted in Hs.
  - induction Hs as [|k ks Hs IH F]; [constructor|].
    cbn [map] in Hn. inversion Hn as [|? ? Hnot Hn']; subst.
    constructor; auto.
    rewrite Forall_forall in *. intros k' Hk'.
    specialize (F _ Hk').
    destruct (str_cmp (sort_key k) (sort_key k')) eqn:E; auto.
    + apply str_cmp_eq in E. destruct Hnot. rewrite E.
      now apply in_map.
    + congruence.
  - intros a b c.
    apply (lex_cmp_le_trans char_cmp char_cmp_eq char_cmp_lt_trans).
Qed.

Lemma list_keys_of_files (self : DnsSec) (z : str) (recursive : bool)
      (ks : list KeyFile) :
  init_all (filter (has_private self)
              (glob self (key_pattern (listed_zone z recursive)))) = Ok ks ->
  snd (list_keys self z recursive) = Ok (sorted_by sort_key str_ltb ks).
Proof.
  intros H. rewrite list_keys_unfold. cbn [snd]. unfold _iter_keyfiles.
  change (fun f => if negb (exists_ self (with_suffix (f_name f) $".private"))
                   then Warn (f_name f) else Yield f)
    with (fun f => if negb (has_private self f) then Warn (f_name f)
                   else Yield f).
  rewrite collect_result, H. reflexivity.
Qed.

(** X9.  The result of [list_keys] does not depend on the order in which
    the directory is scanned, as long as no two of the listed records have
    the same sort key: two directories with the same files give the same
    list. *)
Theorem listing_ignores_scan_order (d1 d2 : DnsSec) (z : str)
      (recursive : bool) (keys : list KeyFile) :
  Permutation (path d1) (path d2) ->
  snd (list_keys d1 z recursive) = Ok keys ->
  NoDup (map sort_key keys) ->
  snd (list_keys d2 z recursive) = Ok keys.
Proof.
  intros HP H Hn. apply list_keys_result in H as (ks1 & H1 & ->).
  set (pat := key_pattern (listed_zone z recursive)) in *.
  assert (HF : Permutation (filter (has_private d1) (glob d1 pat))
                           (filter (has_private d2) (glob d2 pat))).
  { rewrite (filter_ext_eq (has_private d1) (has_private d2))
      by (intros f; now apply exists_Permutation).
    apply filter_Permutation. unfold glob. now apply filter_Permutation. }
  destruct (init_all_Permutation _ _ HF _ H1) as (ks2 & H2 & HK).
  rewrite (list_keys_of_files d2 z recursive ks2 H2). f_equal.
  assert (P1 := sorted_by_Permutation sort_key str_cmp ks1).
  assert (P2 := sorted_by_Permutation sort_key str_cmp ks2).
  assert (S1 := sorted_by_Sorted sort_key str_cmp str_cmp_opp ks1).
  assert (S2 := sorted_by_Sorted sort_key str_cmp str_cmp_opp ks2).
  assert (PP : Permutation (sorted_by sort_key str_ltb ks2)
                           (sorted_by sort_key str_ltb ks1)).
  { transitivity ks2; [now apply Permutation_sym|].
    transitivity ks1; [now apply Permutation_sym | exact P1]. }
  apply (strictly_sorted_unique
           (fun a b => str_cmp (sort_key a) (sort_key b) = Lt)).
  - intros a b Hab Hba. rewrite str_cmp_opp, Hab in Hba. discriminate.
  - apply Sorted_distinct_keys; [exact S2|].
    apply (Permutation_NoDup (l := map sort_key (sorted_by sort_key str_ltb ks1)));
      auto.
    apply Permutation_map, Permutation_sym, PP.
  - apply Sorted_distinct_keys; [exact S1 | exact Hn].
  - exact PP.
Qed.

(** ** The resource record *)

Lemma lstrip_app_kept (p : ascii -> bool) (a : str) (c : ascii) :
  p c = false -> lstrip p (a ++ [c]) = lstrip p a ++ [c].
Proof.
  intros Hc. induction a as [|x a IH]; cbn [app lstrip].
  - now rewrite Hc.
  - destruct (p x); auto.
Qed.

Lemma lstrip_cases (p : ascii -> bool) (s : str) :
  lstrip p s = []
  \/ exists c r, lstrip p s = c :: r /\ p c = false.
Proof.
  induction s as [|x s IH]; cbn [lstrip]; auto.
  destruct (p x) eqn:E; auto. right. eauto.
Qed.

Lemma lstrip_idempotent (p : ascii -> bool) (s : str) :
  lstrip p (lstrip p s) = lstrip p s.
Proof.
  destruct (lstrip_cases p s) as [->|(c & r & -> & Hc)]; auto.
  cbn [lstrip]. now rewrite Hc.
Qed.

Lemma rstrip_cons (p : ascii -> bool) (c : ascii) (r : str) :
  p c = false -> rstrip p (c :: r) = c :: rstrip p r.
Proof.
  intros Hc. unfold rstrip. cbn [rev].
  rewrite (lstrip_app_kept p _ c Hc), rev_app_distr. reflexivity.
Qed.

Lemma rstrip_idempotent (p : ascii -> bool) (s : str) :
  rstrip p (rstrip p s) = rstrip p s.
Proof. unfold rstrip. now rewrite rev_involutive, lstrip_idempotent. Qed.

Lemma strip_cases (p : ascii -> bool) (s : str) :
  (lstrip p s = [] /\ strip p s = [])
  \/ exists c r, lstrip p s = c :: r /\ p c = false
                 /\ strip p s = c :: rstrip p r.
Proof.
  unfold strip. destruct (lstrip_cases p s) as [E|(c & r & E & Hc)];
    rewrite E.
  - left. auto.
  - right. exists c, r. rewrite (rstrip_cons p c r Hc). auto.
Qed.

Lemma strip_idempotent (p : ascii -> bool) (s : str) :
  strip p (strip p s) = strip p s.
Proof.
  destruct (strip_cases p s) as [[_ ->]|(c & r & _ & Hc & ->)]; auto.
  unfold strip at 1. cbn [lstrip]. rewrite Hc.
  rewrite (rstrip_cons p c _ Hc). now rewrite rstrip_idempotent.
Qed.

Lemma lstrip_all (p : ascii -> bool) (s : str) :
  lstrip p s = [] <-> forallb p s = true.
Proof.
  induction s as [|x s IH]; cbn [lstrip forallb]; [tauto|].
  destruct (p x); cbn [andb]; [exact IH|]. split; discriminate.
Qed.

Lemma strip_all (p : ascii -> bool) (s : str) :
  strip p s = [] <-> forallb p s = true.
Proof.
  rewrite <- lstrip_all.
  destruct (strip_cases p s) as [[E ->]|(c & r & E & _ & ->)]; rewrite E.
  - tauto.
  - split; discriminate.
Qed.

Lemma split_str_from_cons (sep : str) (k : nat) (s : str) :
  exists w ws, split_str_from sep k s = w :: ws.
Proof.
  revert k; induction s as [|c s IH]; intros k; cbn [split_str_from]; eauto.
  destruct k as [|k]; [|apply IH].
  destruct (startswith (c :: s) sep); eauto.
  destruct (IH 0%nat) as (w & ws & ->). eauto.
Qed.

Lemma contains_nil (sep : str) : sep <> [] -> contains sep [] = false.
Proof. destruct sep; [congruence | reflexivity]. Qed.

Lemma split_str_two (sep s : str) :
  sep <> [] -> contains sep s = true ->
  exists a b rest, split_str sep s = a :: b :: rest.
Proof.
  intros Hsep. unfold split_str.
  induction s as [|c s IH]; intros H.
  - rewrite (contains_nil sep Hsep) in H. discriminate.
  - cbn [split_str_from]. cbn [contains] in H.
    destruct (startswith (c :: s) sep) eqn:E.
    + destruct (split_str_from_cons sep (length sep - 1) s) as (w & ws & ->).
      eauto.
    + cbn [orb] in H. destruct (IH H) as (a & b & rest & ->). eauto.
Qed.

Lemma record_parts_total (lines ret : list str) :
  exists parts, record_parts lines ret = Ok parts.
Proof.
  revert ret; induction lines as [|l lines IH]; intros ret;
    cbn [record_parts]; eauto.
  destruct (is_record_line l) eqn:E; [|apply IH].
  unfold is_record_line in E. apply andb_true_iff in E as [_ E].
  destruct (split_str_two $"DNSKEY" l) as (a & b & rest & ->);
    [discriminate | exact E |].
  cbn [index nth_error bind]. apply IH.
Qed.

(** X10.  [dnskey_rr] raises nothing: a line that contains [DNSKEY] always
    has a part after it, so that the index [1] is in range.  What it returns
    has no white space at either end. *)
Theorem dnskey_rr_total (rr : file) :
  exists s, dnskey_rr rr = Ok s /\ strip is_space s = s.
Proof.
  unfold dnskey_rr.
  destruct (record_parts_total (f_lines rr) []) as (parts & ->).
  cbn [bind]. eexists. split; [reflexivity|]. apply strip_idempotent.
Qed.

Lemma record_parts_filter (lines ret : list str) :
  record_parts (filter is_record_line lines) ret = record_parts lines ret.
Proof.
  revert ret; induction lines as [|l lines IH]; intros ret; cbn [filter]; auto.
  destruct (is_record_line l) eqn:E; cbn [record_parts]; rewrite E; auto.
  destruct (index _ 1); cbn [bind]; auto.
Qed.


Lemma split_str_skip (sep u rest : str) :
  split_str_from sep (length u) (u ++ rest) = split_str_from sep 0 rest.
Proof.
  induction u as [|c u IH]; cbn [length app]; auto.
Qed.

Lemma startswith_app (sep rest : str) : startswith (sep ++ rest) sep = true.
Proof.
  induction sep as [|c sep IH]; cbn [app startswith].
  - now destruct rest.
  - now rewrite Ascii.eqb_refl.
Qed.

Lemma split_str_sep (c : ascii) (sep rest : str) :
  split_str (c :: sep) ((c :: sep) ++ rest) = [] :: split_str (c :: sep) rest.
Proof.
  unfold split_str. cbn [app split_str_from].
  change (c :: sep ++ rest) with ((c :: sep) ++ rest).
  rewrite startswith_app.
  replace (length (c :: sep) - 1)%nat with (length sep)
    by (cbn [length]; lia).
  now rewrite split_str_skip.
Qed.

(** [DNSKEY] has no proper prefix that is also a suffix: an occurrence in
    [pre ++ DNSKEY ++ rest] that starts inside [pre] lies inside [pre]. *)
Lemma DNSKEY_first (pre rest : str) :
  contains $"DNSKEY" pre = false ->
  forall c u, pre = c :: u ->
    startswith (pre ++ $"DNSKEY" ++ rest) $"DNSKEY" = false.
Proof.
  change $"DNSKEY"
    with ["D"%char; "N"%char; "S"%char; "K"%char; "E"%char; "Y"%char].
  intros H c u ->.
  destruct u as [|c2 [|c3 [|c4 [|c5 [|c6 u]]]]]; cbn [app startswith].
  - destruct (Ascii.eqb "D" c); reflexivity.
  - destruct (Ascii.eqb "D" c); cbn [andb]; auto.
    destruct (Ascii.eqb "N" c2); reflexivity.
  - destruct (Ascii.eqb "D" c); cbn [andb]; auto.
    destruct (Ascii.eqb "N" c2); cbn [andb]; auto.
    destruct (Ascii.eqb "S" c3); reflexivity.
  - destruct (Ascii.eqb "D" c); cbn [andb]; auto.
    destruct (Ascii.eqb "N" c2); cbn [andb]; auto.
    destruct (Ascii.eqb "S" c3); cbn [andb]; auto.
    destruct (Ascii.eqb "K" c4); reflexivity.
  - destruct (Ascii.eqb "D" c); cbn [andb]; auto.
    destruct (Ascii.eqb "N" c2); cbn [andb]; auto.
    destruct (Ascii.eqb "S" c3); cbn [andb]; auto.
    destruct (Ascii.eqb "K" c4); cbn [andb]; auto.
    destruct (Ascii.eqb "E" c5); reflexivity.
  - cbn [contains startswith] in H. apply orb_false_iff in H as [H _].
    replace (startswith (u ++ _) []) with (startswith u []);
      [exact H | now destruct u].
Qed.

Lemma contains_tail (sep : str) (c : ascii) (s : str) :
  contains sep (c :: s) = false -> contains sep s = false.
Proof. cbn [contains]. intros H. now apply orb_false_iff in H as [_ H]. Qed.

Lemma split_str_before (pre rest : str) :
  contains $"DNSKEY" pre = false ->
  split_str $"DNSKEY" (pre ++ $"DNSKEY" ++ rest)
  = pre :: split_str $"DNSKEY" rest.
Proof.
  induction pre as [|c pre IH]; intros H.
  - cbn [app]. apply (split_str_sep "D" $"NSKEY" rest).
  - unfold split_str in *. cbn [app split_str_from].
    change (c :: pre ++ $"DNSKEY" ++ rest)
      with ((c :: pre) ++ $"DNSKEY" ++ rest).
    rewrite (DNSKEY_first (c :: pre) rest H c pre eq_refl).
    rewrite (IH (contains_tail _ _ _ H)). reflexivity.
Qed.

Lemma split_str_none (sep s : str) :
  contains sep s = false -> split_str sep s = [s].
Proof.
  unfold split_str. induction s as [|c s IH]; intros H; auto.
  cbn [split_str_from]. cbn [contains] in H.
  apply orb_false_iff in H as [-> H]. now rewrite (IH H).
Qed.

(** X12.  When the file has one record line, the result is what stands
    between the first [DNSKEY] of the line and the second one, or the end of
    the line, without the white space around it: the text before the first
    [DNSKEY] and everything from a second [DNSKEY] on are dropped. *)
Theorem dnskey_rr_payload (rr : file) (pre mid rest : str) :
  filter is_record_line (f_lines rr) = [pre ++ $"DNSKEY" ++ mid ++ rest] ->
  contains $"DNSKEY" pre = false ->
  contains $"DNSKEY" mid = false ->
  rest = [] \/ (exists r, rest = $"DNSKEY" ++ r) ->
  dnskey_rr rr = Ok (strip is_space mid).
Proof.
  intros Hl Hpre Hmid Hrest. unfold dnskey_rr.
  rewrite <- record_parts_filter, Hl. cbn [record_parts].
  assert (E : exists tl_,
             split_str $"DNSKEY" (pre ++ $"DNSKEY" ++ mid ++ rest)
             = pre :: mid :: tl_).
  { rewrite (split_str_before pre _ Hpre).
    destruct Hrest as [->|(r & ->)].
    - rewrite app_nil_r, (split_str_none _ _ Hmid). eauto.
    - rewrite (split_str_before mid r Hmid). eauto. }
  destruct E as (tl_ & ->).
  assert (Hin : In (pre ++ $"DNSKEY" ++ mid ++ rest)
                   (filter is_record_line (f_lines rr)))
    by (rewrite Hl; now left).
  apply filter_In in Hin as [_ ->].
  cbn [index nth_error bind app join]. now rewrite strip_idempotent.
Qed.

(** ** Running the external programs *)

Lemma linebreak_is_space (c : ascii) :
  is_linebreak c = true -> is_space c = true.
Proof.
  destruct c as [[] [] [] [] [] [] [] []]; vm_compute; intros H;
    first [reflexivity | discriminate H].
Qed.

Lemma splitlines_no_break (s : str) (b : bool) (l : str) (c : ascii) :
  In l (splitlines_from b s) -> In c l -> is_linebreak c = false.
Proof.
  revert b l; induction s as [|x s IH]; intros b l; cbn [splitlines_from].
  - intros [].
  - destruct (b && Ascii.eqb x (ch 10)); [apply IH|].
    destruct (is_linebreak x) eqn:Ex.
    + intros [<-|Hl]; [intros [] | eapply IH; eauto].
    + destruct (splitlines_from false s) as [|w ws] eqn:E.
      * intros [<-|[]] [<-|[]]. exact Ex.
      * intros [<-|Hl].
        -- intros [<-|Hc]; [exact Ex|].
           apply (IH false w); [rewrite E; now left | exact Hc].
        -- apply (IH false l). rewrite E. now right.
Qed.

Lemma splitlines_nil (s : str) : splitlines s = [] <-> s = [].
Proof.
  unfold splitlines. destruct s as [|c s]; cbn [splitlines_from andb];
    [tauto|].
  split; [|discriminate].
  destruct (is_linebreak c); [discriminate|].
  destruct (splitlines_from false s); discriminate.
Qed.

Lemma splitlines_last (s : str) (x : ascii) (b : bool) :
  is_linebreak x = false ->
  exists ls l, splitlines_from b (s ++ [x]) = ls ++ [l ++ [x]].
Proof.
  intros Hx. revert b; induction s as [|c s IH]; intros b;
    cbn [app splitlines_from].
  - replace (b && Ascii.eqb x (ch 10)) with false.
    + rewrite Hx. exists [], []. reflexivity.
    + destruct b; auto. cbn [andb].
      destruct (Ascii.eqb_spec x (ch 10)) as [->|]; auto.
  - destruct (b && Ascii.eqb c (ch 10)); [apply IH|].
    destruct (is_linebreak c).
    + destruct (IH (Ascii.eqb c (ch 13))) as (ls & l & ->).
      exists ([] :: ls), l. reflexivity.
    + destruct (IH false) as (ls & l & ->).
      destruct ls as [|w ws]; cbn [app].
      * exists [], (c :: l). reflexivity.
      * exists ((c :: w) :: ws), l. reflexivity.
Qed.

Lemma strip_last (p : ascii -> bool) (s : str) :
  strip p s = [] \/ exists r x, strip p s = r ++ [x] /\ p x = false.
Proof.
  unfold strip, rstrip.
  destruct (lstrip_cases p (rev (lstrip p s))) as [->|(c & r & -> & Hc)].
  - now left.
  - right. exists (rev r), c. auto.
Qed.

Lemma call_ok (self : DnsSec) (run : list str -> process) (args : list str)
      (lines : list str) :
  snd (_call self run args) = Ok lines <->
  exit_status (run args) = 0
  /\ lines = splitlines (strip is_space (written_stdout (run args))).
Proof.
  unfold _call, subprocess_run. cbn [returncode stdout stderr].
  destruct (exit_status (run args) =? 0) eqn:E; cbn [negb snd].
  - apply Z.eqb_eq in E. split.
    + intros [= <-]. auto.
    + intros [_ ->]. reflexivity.
  - apply Z.eqb_neq in E. split; [discriminate | tauto].
Qed.

Lemma call_log (self : DnsSec) (run : list str -> process) (args : list str) :
  fst (_call self run args) = if echo self then [Executing args] else [].
Proof.
  unfold _call. now destruct (negb _).
Qed.

(** X13.  When [_call] returns, the program ended with exit status 0, and
    the lines returned are those of its output without the white space
    around it: no line holds a line break, there is no line at all exactly
    when the output is white space only, and otherwise the last line ends,
    and so is not empty, with a character that is no white space. *)
Theorem call_lines (self : DnsSec) (run : list str -> process)
      (args : list str) (lines : list str) :
  snd (_call self run args) = Ok lines ->
  exit_status (run args) = 0
  /\ (forall l c, In l lines -> In c l -> is_linebreak c = false)
  /\ (lines = [] <-> forallb is_space (written_stdout (run args)) = true)
  /\ (lines <> [] ->
      exists ls l x, lines = ls ++ [l ++ [x]] /\ is_space x = false).
Proof.
  intros H. apply call_ok in H as [H0 ->]. split; [exact H0|].
  split; [|split].
  - intros l c. apply splitlines_no_break.
  - rewrite splitlines_nil. apply strip_all.
  - intros Hne.
    destruct (strip_last is_space (written_stdout (run args)))
      as [E|(r & x & E & Hx)].
    + rewrite E in Hne. now destruct Hne.
    + rewrite E.
      assert (Hb : is_linebreak x = false).
      { destruct (is_linebreak x) eqn:Eb; auto.
        apply linebreak_is_space in Eb. congruence. }
      destruct (splitlines_last r x false Hb) as (ls & l & Hl).
      exists ls, l, x. split; [exact Hl | exact Hx].
Qed.

Lemma index_last_app {A} (l : list A) (a : A) : index_last (l ++ [a]) = Ok a.
Proof. unfold index_last. now rewrite rev_app_distr. Qed.

Lemma call_lines_facts (self : DnsSec) (run : list str -> process)
      (args : list str) (lines : list str) :
  snd (_call self run args) = Ok lines ->
  exit_status (run args) = 0
  /\ lines = splitlines (strip is_space (written_stdout (run args)))
  /\ (forall last_line, index_last lines = Ok last_line ->
      exists l x, last_line = l ++ [x]).
Proof.
  intros H. apply call_ok in H as [H0 ->]. split; [exact H0|].
  split; [reflexivity|]. intros last_line Hl.
  destruct (strip_last is_space (written_stdout (run args)))
    as [E|(r & x & E & Hx)].
  - rewrite E in Hl. discriminate.
  - rewrite E in Hl.
    assert (Hb : is_linebreak x = false).
    { destruct (is_linebreak x) eqn:Eb; auto.
      apply linebreak_is_space in Eb. congruence. }
    destruct (splitlines_last r x false Hb) as (ls & l & Hs).
    unfold splitlines in Hl. rewrite Hs, index_last_app in Hl.
    injection Hl as <-. eauto.
Qed.

(** ** Setting the times of a key *)

Section SetTime.
Variable small_year : Z -> str.

Lemma flag_value_first (flag : str) (t : option datetime) (rest : list str) :
  (t = None -> flag_value flag rest = None) ->
  flag_value flag (time_flag small_year flag t ++ rest)
  = option_map (date_str small_year) t.
Proof.
  destruct t as [d|]; cbn [time_flag app flag_value option_map].
  - intros _. now rewrite str_eqb_refl.
  - intros H. now apply H.
Qed.

Lemma flag_value_skip (flag other : str) (t : option datetime)
      (rest : list str) :
  str_eqb other flag = false ->
  flag_value flag (time_flag small_year other t ++ rest)
  = flag_value flag rest.
Proof.
  intros Hne. destruct t; cbn [time_flag app flag_value];
    [rewrite Hne|]; reflexivity.
Qed.

Lemma flag_time_parsed (flag : str) (opts : list str) (t : option datetime) :
  flag_value flag opts = option_map (date_str small_year) t ->
  (forall d, t = Some d -> four_digit_time d) ->
  flag_time flag opts = t.
Proof.
  intros Hv Hd. unfold flag_time. rewrite Hv.
  destruct t as [d|]; cbn [option_map]; [|reflexivity].
  now rewrite (strptime_date_str small_year d (Hd d eq_refl)).
Qed.

(** X14.  The options that [key_settime] builds hold what was given and
    nothing else.  Read as pairs of a flag and its value, the list has one
    pair for each time that is not [None]: after [-P], [-A], [-I] and [-D]
    stands [date_str] of the publish, activate, inactivate and delete time,
    and a flag whose time is [None] has no pair.  When the times given are
    proper dates in years of four digits, each value parses back to its
    time. *)
Theorem settime_flags_read_back
      (publish activate inactivate delete : option datetime) :
  let opts := settime_flags small_year publish activate inactivate delete in
  let given := [publish; activate; inactivate; delete] in
  (flag_value $"-P" opts = option_map (date_str small_year) publish
   /\ flag_value $"-A" opts = option_map (date_str small_year) activate
   /\ flag_value $"-I" opts = option_map (date_str small_year) inactivate
   /\ flag_value $"-D" opts = option_map (date_str small_year) delete)
  /\ length opts = (2 * length (filter_set given))%nat
  /\ ((forall t, In (Some t) given -> four_digit_time t) ->
      flag_time $"-P" opts = publish /\ flag_time $"-A" opts = activate
      /\ flag_time $"-I" opts = inactivate /\ flag_time $"-D" opts = delete).
Proof.
  intros opts given.
  assert (Hv : flag_value $"-P" opts = option_map (date_str small_year) publish
               /\ flag_value $"-A" opts
                  = option_map (date_str small_year) activate
               /\ flag_value $"-I" opts
                  = option_map (date_str small_year) inactivate
               /\ flag_value $"-D" opts
                  = option_map (date_str small_year) delete).
  { subst opts. unfold settime_flags.
    assert (Hend : forall fl other t,
               str_eqb other fl = false ->
               flag_value fl (time_flag small_year other t) = None).
    { intros fl other t Hne.
      rewrite <- (app_nil_r (time_flag _ _ _)).
      now rewrite flag_value_skip. }
    split; [|split; [|split]].
    - apply flag_value_first. intros _.
      rewrite !flag_value_skip by reflexivity. now apply Hend.
    - rewrite flag_value_skip by reflexivity.
      apply flag_value_first. intros _.
      rewrite flag_value_skip by reflexivity. now apply Hend.
    - rewrite !flag_value_skip by reflexivity.
      apply flag_value_first. intros _. now apply Hend.
    - rewrite !flag_value_skip by reflexivity.
      rewrite <- (app_nil_r (time_flag _ _ delete)).
      now apply flag_value_first. }
  split; [exact Hv|]. split.
  - subst opts given. unfold settime_flags.
    destruct publish, activate, inactivate, delete; reflexivity.
  - intros Hd. destruct Hv as (Hp & Ha & Hi & Hx).
    split; [|split; [|split]]; apply flag_time_parsed; auto;
      intros d ->; apply Hd; cbn; auto.
Qed.

Lemma call_program_unfold (self : DnsSec) (run : programs) (args : list str) :
  call_program self run args
  = (mkDnsSec (fst (run (path self) args)) (echo self),
     _call self (fun _ => snd (run (path self) args)) args).
Proof. unfold call_program. now destruct (run (path self) args). Qed.



(** ** Generating a key from a template *)

Lemma lookup_some (self : DnsSec) (n : str) (pk : file) :
  lookup self n = Some pk -> In pk (path self) /\ f_name pk = n.
Proof.
  unfold lookup. intros H. apply find_some in H as [H1 H2].
  split; auto. now apply str_eqb_eq.
Qed.

Lemma key_gentemplate_unfold (self : DnsSec) (run : programs)
      (template : KeyFile)
      (publish activate inactivate delete : option datetime) :
  key_gentemplate small_year self run template
    publish activate inactivate delete
  = let gen := run (path self) (keygen_args template) in
    let self1 := mkDnsSec (fst gen) (echo self) in
    let log1 := if echo self then [Executing (keygen_args template)] else [] in
    match snd (_call self (fun _ => snd gen) (keygen_args template)) with
    | Raise e => Some (self1, (log1, Raise e))
    | Ok pipe =>
        match index_last pipe with
        | Raise e => Some (self1, (log1, Raise e))
        | Ok last_line =>
            match lookup self1 (last_line ++ $".key") with
            | None => None
            | Some pk =>
                match KeyFile_init pk with
                | Raise e => Some (self1, (log1, Raise e))
                | Ok new_key =>
                    let st := key_settime small_year self1 run new_key
                                publish activate inactivate delete in
                    Some (fst st,
                          (log1 ++ fst (snd st),
                           _ <- snd (snd st) ;; Ok new_key))
                end
            end
        end
    end.
Proof.
  unfold key_gentemplate. rewrite call_program_unfold. cbv zeta.
  rewrite <- (call_log self (fun _ => snd (run (path self) (keygen_args template)))
               (keygen_args template)).
  destruct (_call self _ (keygen_args template)) as [log1 [pipe|e]];
    cbn [fst snd]; [|reflexivity].
  destruct (index_last pipe) as [last_line|e]; [|reflexivity].
  destruct (lookup _ _) as [pk|]; [|reflexivity].
  destruct (KeyFile_init pk) as [k|e]; [|reflexivity].
  destruct (key_settime _ _ _ _ _ _ _ _) as [self2 [log2 r2]]. reflexivity.
Qed.

(** X17.  When [key_gentemplate] returns a record, the key generator ended
    with exit status 0, the last line of its output is the name of the key,
    and the record is that of the file with this name and the suffix [.key]
    as the generator left it: it is built before the times are set and does
    not show them.  The times are then set for this key in the directory that
    the generator left. *)
Theorem gentemplate_success (self self2 : DnsSec) (run : programs)
      (template k : KeyFile)
      (publish activate inactivate delete : option datetime)
      (log : list stderr_line) :
  key_gentemplate small_year self run template
    publish activate inactivate delete = Some (self2, (log, Ok k)) ->
  let gen := run (path self) (keygen_args template) in
  exit_status (snd gen) = 0
  /\ index_last (splitlines (strip is_space (written_stdout (snd gen))))
     = Ok (name k)
  /\ (exists pk, In pk (fst gen) /\ f_name pk = name k ++ $".key"
                 /\ KeyFile_init pk = Ok k)
  /\ exists log2,
       key_settime small_year (mkDnsSec (fst gen) (echo self)) run k
         publish activate inactivate delete = (self2, (log2, Ok tt))
       /\ log = (if echo self then [Executing (keygen_args template)] else [])
                ++ log2.
Proof.
  rewrite key_gentemplate_unfold. cbv zeta.
  destruct (snd (_call _ _ _)) as [pipe|e] eqn:Ec; [|discriminate].
  apply call_lines_facts in Ec as (H0 & -> & Hlast).
  destruct (index_last _) as [last_line|e] eqn:El; [|discriminate].
  destruct (lookup _ _) as [pk|] eqn:Ep; [|discriminate].
  destruct (KeyFile_init pk) as [k'|e] eqn:Ek; [|discriminate].
  destruct (key_settime _ _ _ _ _ _ _ _) as [s2 [log2 r2]] eqn:Es.
  cbn [fst snd]. destruct r2 as [[]|e]; cbn [bind]; [|discriminate].
  intros [= <- <- <-].
  apply lookup_some in Ep as [Hin Hname]. cbn [path] in Hin.
  assert (Hn : name k' = last_line).
  { destruct (KeyFile_init_paths pk k' Ek) as (_ & _ & -> & _).
    rewrite Hname. apply stem_key.
    destruct (Hlast last_line eq_refl) as (l & x & ->). now destruct l. }
  rewrite Hn. split; [exact H0|]. split; [reflexivity|].
  split; [exists pk; auto|]. exists log2. auto.
Qed.

(** X18.  A key generator that fails, or prints nothing, stops
    [key_gentemplate] before [dnssec-settime] is started.  When the generator
    writes ASCII only and ends with an exit status that is not 0,
    [key_gentemplate] raises [OSError] with the message of [_call]; when it
    ends with exit status 0 and has printed white space only, the index
    [pipe[-1]] raises [IndexError].  In both cases the directory is as the
    generator left it and the generator's command is the only one echoed. *)
Theorem gentemplate_failure (self : DnsSec) (run : programs)
      (template : KeyFile)
      (publish activate inactivate delete : option datetime) :
  let gen := run (path self) (keygen_args template) in
  let left_by_generator := mkDnsSec (fst gen) (echo self) in
  let echoed := if echo self then [Executing (keygen_args template)] else [] in
  is_ascii_text (written_stdout (snd gen)) = true ->
  (exit_status (snd gen) <> 0 ->
   key_gentemplate small_year self run template
     publish activate inactivate delete
   = Some (left_by_generator,
           (echoed,
            Raise (OSError ($"Error executing process: "
                              ++ str_of_int (exit_status (snd gen)) ++ [ch 10]
                              ++ $"None")))))
  /\ (exit_status (snd gen) = 0 ->
      forallb is_space (written_stdout (snd gen)) = true ->
      key_gentemplate small_year self run template
        publish activate inactivate delete
      = Some (left_by_generator, (echoed, Raise IndexError))).
Proof.
  intros gen left_by_generator echoed _.
  rewrite key_gentemplate_unfold. cbv zeta. fold gen.
  fold left_by_generator. fold echoed.
  unfold _call, subprocess_run.
  cbn [returncode stdout stderr format_optional]. split.
  - intros Hne. apply Z.eqb_neq in Hne. rewrite Hne. reflexivity.
  - intros H0 Hb. rewrite H0. cbn [Z.eqb negb snd].
    apply strip_all in Hb. rewrite Hb. reflexivity.
Qed.
End SetTime.

(** ** Sort keys *)

(** X19.  On conventional records whose type is one of those the constructor
    assigns, the sort key determines the zone, the type, the algorithm and
    the key tag: two such records with the same sort key agree on all
    four. *)
Theorem sort_key_injective (a b : KeyFile) :
  conventional a = true -> conventional b = true ->
  In (type a) [$"ZSK"; $"KSK"; $""] -> In (type b) [$"ZSK"; $"KSK"; $""] ->
  sort_key a = sort_key b ->
  zone a = zone b /\ type a = type b /\ algo a = algo b /\ keyid a = keyid b.
Proof.
  intros Ca Cb Ta Tb E.
  pose proof (sort_key_cmp a b Ca Cb Ta Tb) as H.
  rewrite E, str_cmp_refl in H. unfold key_tuple_cmp in H.
  destruct (str_cmp (zone a) (zone b)) eqn:Ez; try discriminate.
  destruct (str_cmp (type a) (type b)) eqn:Et; try discriminate.
  destruct (algo a ?= algo b) eqn:Ea; try discriminate.
  symmetry in H.
  apply str_cmp_eq in Ez, Et. apply Z.compare_eq in Ea, H. auto.
Qed.

(** ** Instances *)

Lemma state_never_goes_back_witness :
  (stage_rank (state key_2024 (midnight 2024 1 15))
   <= stage_rank (state key_2024 (midnight 2024 3 1)))%nat.
Proof.
  apply (state_never_goes_back key_2024 (midnight 2024 1 15)
           (midnight 2024 3 1)).
  reflexivity.
Defined.

Lemma next_change_advances_witness :
  (stage_rank (state key_2024 (midnight 2024 1 15))
   < stage_rank (state key_2024 (midnight 2024 2 1)))%nat.
Proof.
  apply (next_change_advances key_2024 (midnight 2024 1 15)
           (midnight 2024 2 1)).
  reflexivity.
Defined.

Lemma no_change_iff_deleted_witness :
  next_change key_2024 (midnight 2024 8 1) = NoChange
  <-> state key_2024 (midnight 2024 8 1) = $"DEL".
Proof.
  apply (no_change_iff_deleted key_2024 (midnight 2024 8 1)
           (midnight 2024 7 1)).
  - reflexivity.
  - repeat constructor.
Defined.

Lemma date_str_round_trip_witness :
  length (date_str (fun _ => []) (mkdt 2024 2 9 7 5 0 0)) = 14%nat
  /\ all_digits (date_str (fun _ => []) (mkdt 2024 2 9 7 5 0 0)) = true
  /\ strptime (date_str (fun _ => []) (mkdt 2024 2 9 7 5 0 0))
     = Ok (mkdt 2024 2 9 7 5 0 0).
Proof.
  apply (date_str_round_trip (fun _ => []) (mkdt 2024 2 9 7 5 0 0)).
  unfold four_digit_time. cbn. lia.
Defined.

Lemma date_part_third_word_witness :
  date_part ($";" ++ $" " ++ $"Publish:" ++ $" " ++ $"20240101000000"
               ++ $" (Mon Jan  1 00:00:00 2024)")
  = if (length $"20240101000000" =? 14)%nat
    then strptime $"20240101000000" else Raise ValueError_date_format.
Proof.
  apply (date_part_third_word $";" $"Publish:" $"20240101000000"
           $" (Mon Jan  1 00:00:00 2024)").
  - split; [discriminate | reflexivity].
  - split; [discriminate | reflexivity].
  - split; [discriminate | reflexivity].
  - right. exists " "%char, $"(Mon Jan  1 00:00:00 2024)".
    split; reflexivity.
Defined.

Lemma listed_keys_are_paired_witness :
  exists k f,
    In f (path example_dir)
    /\ key_name_for $"example.com." false (f_name f)
    /\ KeyFile_init f = Ok k
    /\ path_rr k = f_name f
    /\ exists_ example_dir (path_rr k) = true
    /\ exists_ example_dir (path_pk k) = true.
Proof.
  edestruct (listed_keys_are_paired example_dir $"example.com." false
               _ eq_refl eq_refl) as (f & H).
  { left. reflexivity. }
  eexists. exists f. exact H.
Defined.

Lemma listed_keys_of_zone_witness :
  exists keys,
    snd (list_keys example_dir $"example.com." false) = Ok keys
    /\ keys <> []
    /\ Forall (fun k => zone k = $"example.com.") keys.
Proof.
  eexists. split; [reflexivity|]. split; [discriminate|].
  apply Forall_forall.
  apply (listed_keys_of_zone example_dir $"example.com." _ eq_refl).
  - vm_compute. intuition discriminate.
  - reflexivity.
Defined.

Lemma listing_ignores_scan_order_witness :
  exists keys,
    snd (list_keys example_dir $"example.com." false) = Ok keys
    /\ snd (list_keys (mkDnsSec (rev (path example_dir)) true)
              $"example.com." false) = Ok keys.
Proof.
  eexists. split; [reflexivity|].
  apply (listing_ignores_scan_order example_dir
           (mkDnsSec (rev (path example_dir)) true) $"example.com." false _
           (Permutation_rev (path example_dir)) eq_refl).
  vm_compute. repeat constructor; cbn [In]; intuition discriminate.
Defined.

Lemma dnskey_rr_payload_witness :
  dnskey_rr example_key
  = Ok (strip is_space
          ($" 256 3 13 mdsswUyr3DPW132mOi8V9xESWE8jTo0d" ++ nl)).
Proof.
  apply (dnskey_rr_payload example_key $"example.com. IN "
           ($" 256 3 13 mdsswUyr3DPW132mOi8V9xESWE8jTo0d" ++ nl) []).
  - reflexivity.
  - reflexivity.
  - reflexivity.
  - left. reflexivity.
Defined.

Lemma call_lines_witness :
  exit_status (snd (sample_tools [] [$"dnssec-keygen"])) = 0
  /\ (forall l c, In l [$"Kexample.com.+013+12345"] -> In c l ->
                  is_linebreak c = false)
  /\ ([$"Kexample.com.+013+12345"] = []
      <-> forallb is_space
            (written_stdout (snd (sample_tools [] [$"dnssec-keygen"])))
          = true)
  /\ ([$"Kexample.com.+013+12345"] <> [] ->
      exists ls l x, [$"Kexample.com.+013+12345"] = ls ++ [l ++ [x]]
                     /\ is_space x = false).
Proof.
  apply (call_lines example_dir (fun args => snd (sample_tools [] args))
           [$"dnssec-keygen"] [$"Kexample.com.+013+12345"]).
  reflexivity.
Defined.

Lemma settime_flags_read_back_witness :
  let opts :=
    settime_flags (fun _ => []) (Some (midnight 2025 1 1))
      (Some (mkdt 2025 2 1 12 30 0 0)) None None in
  flag_time $"-P" opts = Some (midnight 2025 1 1)
  /\ flag_time $"-A" opts = Some (mkdt 2025 2 1 12 30 0 0)
  /\ flag_time $"-I" opts = None /\ flag_time $"-D" opts = None.
Proof.
  apply (proj2 (proj2 (settime_flags_read_back (fun _ => [])
                         (Some (midnight 2025 1 1))
                         (Some (mkdt 2025 2 1 12 30 0 0)) None None))).
  intros t [H|[H|[H|[H|[]]]]]; try discriminate H;
    injection H as <-; unfold four_digit_time; cbn; lia.
Defined.


Lemma gentemplate_success_witness :
  exists self2 log k,
    key_gentemplate (fun _ => []) (DnsSec_init []) sample_tools key_2024
      (Some (midnight 2025 1 1)) None None None = Some (self2, (log, Ok k))
    /\ name k = $"Kexample.com.+013+12345"
    /\ d_publish k = Some (midnight 2024 1 1)
    /\ exists pk, In pk (fst (sample_tools [] (keygen_args key_2024)))
                  /\ f_name pk = name k ++ $".key"
                  /\ KeyFile_init pk = Ok k.
Proof.
  eexists. eexists. eexists. split; [reflexivity|].
  split; [reflexivity|]. split; [reflexivity|].
  exact (proj1 (proj2 (proj2
           (gentemplate_success (fun _ => []) (DnsSec_init []) _ sample_tools
              key_2024 _ (Some (midnight 2025 1 1)) None None None _
              eq_refl)))).
Defined.

Lemma gentemplate_failure_witness :
  key_gentemplate (fun _ => []) (DnsSec_init [example_key]) broken_tools
    key_2024 (Some (midnight 2025 1 1)) None None None
  = Some (DnsSec_init [example_key],
          ([Executing (keygen_args key_2024)],
           Raise (OSError ($"Error executing process: 1" ++ nl ++ $"None"))))
  /\ key_gentemplate (fun _ => []) (DnsSec_init [example_key]) silent_tools
       key_2024 (Some (midnight 2025 1 1)) None None None
     = Some (DnsSec_init [example_key],
             ([Executing (keygen_args key_2024)], Raise IndexError)).
Proof.
  split.
  - apply (proj1 (gentemplate_failure (fun _ => [])
                    (DnsSec_init [example_key]) broken_tools key_2024
                    (Some (midnight 2025 1 1)) None None None eq_refl)).
    discriminate.
  - apply (proj2 (gentemplate_failure (fun _ => [])
                    (DnsSec_init [example_key]) silent_tools key_2024
                    (Some (midnight 2025 1 1)) None None None eq_refl));
      reflexivity.
Defined.

Lemma sort_key_injective_witness :
  zone key_2024 = zone (set_d_create key_2024 (Some (midnight 2023 12 15)))
  /\ type key_2024 = type (set_d_create key_2024 (Some (midnight 2023 12 15)))
  /\ algo key_2024 = algo (set_d_create key_2024 (Some (midnight 2023 12 15)))
  /\ keyid key_2024
     = keyid (set_d_create key_2024 (Some (midnight 2023 12 15))).
Proof.
  apply (sort_key_injective key_2024
           (set_d_create key_2024 (Some (midnight 2023 12 15))));
    try reflexivity; left; reflexivity.
Defined.
